(** * The Fetch operation of CyberChef-Xec (src/core/operations/Fetch.mjs)

    A shallow embedding of [Fetch.run] and of the pieces of the JavaScript
    host it relies on ([String.prototype.trim], [split], [indexOf], [slice],
    the [Headers] class of the Fetch standard, the [fetch] capability and the
    [Response] it resolves to), followed by the properties of the operation.

    An ECMAScript string is a sequence of 16-bit code units; it is modelled
    as a list of code units held in [N].  The operation is asynchronous but
    strictly sequential: each [await] either yields a value or raises, so
    the body of [run] is a computation in a state-and-exception monad over
    the operation instance and a log of the host interactions performed. *)

From Stdlib Require Import List NArith ZArith Bool Ascii String Lia.
From Stdlib.Strings Require Import Byte.
Import ListNotations.

#[local] Open Scope N_scope.

(* ================================================================== *)
(** ** ECMAScript strings *)

Module Js.

(** A string value: its UTF-16 code units, in order. *)
Definition str := list N.

(** A string literal of the source (only ASCII literals occur). *)
Fixpoint lit (s : string) : str :=
  match s with
  | EmptyString => []
  | String c s' => N_of_ascii c :: lit s'
  end.

Definition eqb (a b : str) : bool :=
  if list_eq_dec N.eq_dec a b then true else false.

(** [s.length] *)
Definition length (s : str) : Z := Z.of_nat (List.length s).

(** ECMAScript WhiteSpace and LineTerminator code points, the set that
    [String.prototype.trim] strips: TAB, VT, FF, SP, NBSP, ZWNBSP, the
    category Zs, and LF, CR, LS, PS. *)
Definition is_white (c : N) : bool :=
  (c =? 9) || (c =? 10) || (c =? 11) || (c =? 12) || (c =? 13) ||
  (c =? 32) || (c =? 160) || (c =? 5760) ||
  ((8192 <=? c) && (c <=? 8202)) ||
  (c =? 8232) || (c =? 8233) || (c =? 8239) || (c =? 8287) ||
  (c =? 12288) || (c =? 65279).

Fixpoint drop_while (p : N -> bool) (s : str) : str :=
  match s with
  | [] => []
  | c :: s' => if p c then drop_while p s' else s
  end.

Definition trimStart (s : str) : str := drop_while is_white s.
Definition trimEnd (s : str) : str := rev (drop_while is_white (rev s)).

(** [s.trim()] *)
Definition trim (s : str) : str := trimEnd (trimStart s).

(** [s.indexOf(c)] for a one-unit search string: the index of the first
    occurrence, or -1. *)
Fixpoint indexOf_from (c : N) (s : str) (i : Z) : Z :=
  match s with
  | [] => (-1)%Z
  | d :: s' => if d =? c then i else indexOf_from c s' (i + 1)%Z
  end.

Definition indexOf (s : str) (c : N) : Z := indexOf_from c s 0%Z.

(** The clamping of a relative index done by [slice]. *)
Definition clamp (len k : Z) : Z :=
  if (k <? 0)%Z then Z.max (len + k) 0 else Z.min k len.

(** [s.slice(from, to)] *)
Definition slice (s : str) (from to : Z) : str :=
  let len := length s in
  let a := clamp len from in
  let b := clamp len to in
  firstn (Z.to_nat (Z.max (b - a) 0)) (skipn (Z.to_nat a) s).

(** [s.slice(from)] *)
Definition slice_from (s : str) (from : Z) : str :=
  slice s from (length s).

Definition LF : N := 10.
Definition CR : N := 13.

(** [s.split(/\r?\n/)]: the pattern is tried at each position from left
    to right; where it matches, the piece collected so far ends and the
    scan resumes after the match.  [cur] is the piece being collected. *)
Fixpoint split_from (cur : str) (s : str) : list str :=
  match s with
  | [] => [cur]
  | c :: rest =>
      if c =? LF then cur :: split_from [] rest
      else if c =? CR then
        match rest with
        | d :: rest' =>
            if d =? LF then cur :: split_from [] rest'
            else split_from (cur ++ [c]) rest
        | [] => split_from (cur ++ [c]) rest
        end
      else split_from (cur ++ [c]) rest
  end.

Definition split_lines (s : str) : list str := split_from [] s.

End Js.

Notation "` s" := (Js.lit s%string) (at level 1, s at level 0, format "` s").


(* ================================================================== *)
(** ** The [Headers] class of the host (Fetch standard)

    [new Headers()] is an empty header list with guard "none".  Names and
    values are byte strings; names are compared without regard to ASCII
    case; [set] normalizes the value, rejects an invalid name or value with
    a [TypeError], and otherwise overwrites the first header of that name,
    removes the others, or appends. *)

Module Headers.

Definition header : Type := Js.str * Js.str.
Definition t : Type := list header.

Definition empty : t := [].

Definition lower (c : N) : N :=
  if (65 <=? c) && (c <=? 90) then c + 32 else c.

Definition name_eqb (a b : Js.str) : bool :=
  Js.eqb (map lower a) (map lower b).

(** RFC 9110 token characters. *)
Definition is_tchar (c : N) : bool :=
  ((48 <=? c) && (c <=? 57)) || ((65 <=? c) && (c <=? 90)) ||
  ((97 <=? c) && (c <=? 122)) ||
  (c =? 33) || (c =? 35) || (c =? 36) || (c =? 37) || (c =? 38) ||
  (c =? 39) || (c =? 42) || (c =? 43) || (c =? 45) || (c =? 46) ||
  (c =? 94) || (c =? 95) || (c =? 96) || (c =? 124) || (c =? 126).

(** HTTP whitespace bytes: TAB, LF, CR, SP. *)
Definition is_http_white (c : N) : bool :=
  (c =? 9) || (c =? 10) || (c =? 13) || (c =? 32).

Definition is_tab_or_space (c : N) : bool := (c =? 9) || (c =? 32).

Definition normalize (v : Js.str) : Js.str :=
  rev (Js.drop_while is_http_white (rev (Js.drop_while is_http_white v))).

Definition valid_name (n : Js.str) : bool :=
  match n with
  | [] => false
  | _ => forallb is_tchar n
  end.

(** A header value is a byte string (every unit at most 255) without NUL,
    LF or CR and without leading or trailing tab or space. *)
Definition valid_value (v : Js.str) : bool :=
  forallb (fun c => (c <=? 255) && negb ((c =? 0) || (c =? 10) || (c =? 13))) v
  && match v with [] => true | c :: _ => negb (is_tab_or_space c) end
  && match rev v with [] => true | c :: _ => negb (is_tab_or_space c) end.

Definition remove (n : Js.str) (l : t) : t :=
  filter (fun h => negb (name_eqb (fst h) n)) l.

(** "Set a header in a header list". *)
Fixpoint set_list (l : t) (n v : Js.str) : t :=
  match l with
  | [] => [(n, v)]
  | (n', v') :: l' =>
      if name_eqb n' n then (n', v) :: remove n l'
      else (n', v') :: set_list l' n v
  end.

(** [headers.set(name, value)]; [None] stands for the [TypeError]. *)
Definition set (l : t) (n v : Js.str) : option t :=
  let v := normalize v in
  if valid_name n && valid_value v then Some (set_list l n v) else None.

Fixpoint join (sep : Js.str) (vs : list Js.str) : Js.str :=
  match vs with
  | [] => []
  | [v] => v
  | v :: vs' => v ++ sep ++ join sep vs'
  end.

(** "Get a header from a header list": the values of the headers of that
    name joined by comma and space, or nothing when there is none. *)
Definition get (l : t) (n : Js.str) : option Js.str :=
  match filter (fun h => name_eqb (fst h) n) l with
  | [] => None
  | hs => Some (join `", " (map snd hs))
  end.

End Headers.

(* ================================================================== *)
(** ** Errors, values and the host *)

(** What can be thrown: the repository's [OperationError], or an error
    object built by the host (a [TypeError], a [DOMException], ...),
    described by its [name] and [message]. *)
Inductive Thrown : Type :=
| OperationError (message : Js.str)
| HostError (name message : Js.str).

(** The class OperationError (src/core/errors/OperationError.mjs) is
    imported by Fetch.mjs and is not among the sources.  It is an [Error]
    built from a message; the [name] its instances carry, which [toString]
    prints before the message, is not visible from here and is taken as a
    parameter. *)
Class OperationErrorClass : Type := {
  OperationError_name : Js.str
}.

(** [Error.prototype.toString]. *)
Definition Error_toString (name message : Js.str) : Js.str :=
  match name, message with
  | [], _ => message
  | _, [] => name
  | _, _ => name ++ `": " ++ message
  end.

(** [err.toString()] *)
Definition toString {cls : OperationErrorClass} (err : Thrown) : Js.str :=
  match err with
  | OperationError message => Error_toString OperationError_name message
  | HostError name message => Error_toString name message
  end.

(** The [Headers] class belongs to the host.  The Fetch standard says
    that [headers.set] throws a [TypeError] for a name or a value it
    rejects and does not fix the message of that error: each host words it
    in its own way, from the name and the value it was given.  The wording
    is a parameter. *)
Class HeadersClass : Type := {
  rejection_message : Js.str -> Js.str -> Js.str
}.

(** The [TypeError] raised by [headers.set(name, value)]. *)
Definition TypeError {hdrs : HeadersClass} (name value : Js.str) : Thrown :=
  HostError `"TypeError" (rejection_message name value).

(** The request configuration object built by [run]. *)
Record Config : Type := mkConfig {
  method : Js.str;
  headers : Headers.t;
  cache : Js.str;
  body : option Js.str
}.

(** [config.body = b] *)
Definition set_body (config : Config) (b : Js.str) : Config :=
  mkConfig (method config) (headers config) (cache config) (Some b).

(** The [Response] a request resolves to: its status, its classification
    and what each of the two body readers settles to. *)
Record Response : Type := mkResponse {
  status : N;
  type : Js.str;
  arrayBuffer : Thrown + list byte;
  text : Thrown + Js.str
}.

(** The ambient environment: [fetch] is absent ([typeof fetch] is not
    "function") or settles every request to a rejection or a response. *)
Record Host : Type := mkHost {
  fetch : option (Js.str -> Config -> Thrown + Response)
}.

(** What [run] resolves to: a string or an array of numbers. *)
Inductive Value : Type :=
| VString (s : Js.str)
| VArray (l : list N).

(** Modelled from the spec: the base class Operation (src/core/Operation.mjs)
    is not among the sources; the spec describes the declared output type
    and the presentation type as fields of the instance that [run]
    overwrites, and so they are here. *)
Record Operation : Type := mkOperation {
  outputType : Js.str;
  presentType : Js.str
}.

(** The interactions of one call, in the order they happen. *)
Inductive Event : Type :=
| Requested (url : Js.str) (config : Config)
| Assigned_outputType (v : Js.str)
| Assigned_presentType (v : Js.str)
| Read_arrayBuffer
| Read_text.

Record State : Type := mkState {
  this : Operation;
  log : list Event
}.

(* ================================================================== *)
(** ** The monad of [run]: state and exceptions *)

Inductive Completion (A : Type) : Type :=
| Return (a : A)
| Throw (e : Thrown).
Arguments Return {A} a.
Arguments Throw {A} e.

Definition M (A : Type) : Type := State -> Completion A * State.

Definition ret {A} (a : A) : M A := fun s => (Return a, s).
Definition throw {A} (e : Thrown) : M A := fun s => (Throw e, s).

Definition bind {A B} (m : M A) (k : A -> M B) : M B :=
  fun s =>
    match m s with
    | (Return a, s') => k a s'
    | (Throw e, s') => (Throw e, s')
    end.

(** [try { m } catch (err) { h err }] *)
Definition try_catch {A} (m : M A) (h : Thrown -> M A) : M A :=
  fun s =>
    match m s with
    | (Return a, s') => (Return a, s')
    | (Throw e, s') => h e s'
    end.

Notation "x <- m ;; k" := (bind m (fun x => k))
  (at level 61, m at next level, right associativity).
Notation "m ;;; k" := (bind m (fun _ => k))
  (at level 61, right associativity).

Definition emit (e : Event) : M unit :=
  fun s => (Return tt, mkState (this s) (log s ++ [e])).

(** Settling of an awaited promise or of a call that may throw. *)
Definition settle {A} (r : Thrown + A) : M A :=
  match r with
  | inl e => throw e
  | inr a => ret a
  end.

(** [this.outputType = v] *)
Definition set_outputType (v : Js.str) : M unit :=
  fun s => (Return tt,
            mkState (mkOperation v (presentType (this s)))
                    (log s ++ [Assigned_outputType v])).

(** [this.presentType = v] *)
Definition set_presentType (v : Js.str) : M unit :=
  fun s => (Return tt,
            mkState (mkOperation (outputType (this s)) v)
                    (log s ++ [Assigned_presentType v])).

(** [await fetch(url, config)] *)
Definition await_fetch (f : Js.str -> Config -> Thrown + Response)
    (url : Js.str) (config : Config) : M Response :=
  emit (Requested url config) ;;; settle (f url config).

(** [await response.arrayBuffer()] *)
Definition await_arrayBuffer (r : Response) : M (list byte) :=
  emit Read_arrayBuffer ;;; settle (arrayBuffer r).

(** [await response.text()] *)
Definition await_text (r : Response) : M Js.str :=
  emit Read_text ;;; settle (text r).

(* ================================================================== *)
(** ** [Fetch.run] *)

Module Fetch.

(** [args]: [method, payload, headers, return type]. *)
Record Args : Type := mkArgs {
  arg_method : Js.str;
  arg_payload : Js.str;
  arg_headersText : Js.str;
  arg_returnType : Js.str
}.

Definition colon : N := 58.

(** [input || (the empty string)]: among strings only the empty one is
    falsy, and it is replaced by itself. *)
Definition or_empty (input : Js.str) : Js.str :=
  match input with
  | [] => []
  | _ => input
  end.

Definition parse_error (line : Js.str) : Thrown :=
  OperationError (`"Could not parse header in line: " ++ line).

(** The callback given to [forEach], on the header set built so far. *)
Definition header_line {hdrs : HeadersClass}
    (headers : Headers.t) (line : Js.str)
  : Thrown + Headers.t :=
  let line := Js.trim line in
  if (Js.length line =? 0)%Z then inr headers
  else
    let colonIndex := Js.indexOf line colon in
    if (colonIndex <? 0)%Z then inl (parse_error line)
    else
      let name := Js.trim (Js.slice line 0 colonIndex) in
      let value := Js.trim (Js.slice_from line (colonIndex + 1)) in
      if (Js.length name =? 0)%Z then inl (parse_error line)
      else
        match Headers.set headers name value with
        | Some headers' => inr headers'
        | None => inl (TypeError name value)
        end.

(** [lines.forEach(callback)]: stops at the first line that throws. *)
Fixpoint forEach {hdrs : HeadersClass}
    (lines : list Js.str) (headers : Headers.t)
  : Thrown + Headers.t :=
  match lines with
  | [] => inr headers
  | line :: lines' =>
      match header_line headers line with
      | inl e => inl e
      | inr headers' => forEach lines' headers'
      end
  end.

(** Lines 91-107: the header set of [headersText]. *)
Definition parse_headers {hdrs : HeadersClass} (headersText : Js.str)
  : Thrown + Headers.t :=
  forEach (Js.split_lines headersText) Headers.empty.

(** Lines 109-118: the request configuration. *)
Definition build_config (method payload : Js.str) (headers : Headers.t)
  : Config :=
  let config := mkConfig method headers `"no-cache" None in
  let hasPayload := (Js.length payload >? 0)%Z in
  if negb (Js.eqb method `"GET") && negb (Js.eqb method `"HEAD")
     && hasPayload
  then set_body config payload
  else config.

Definition blocked_message : Js.str :=
  `"Error: Null response. Try setting the connection mode to CORS.".

Definition unavailable_message : Js.str :=
  `"Fetch API is not available in this environment.".

Definition hint_heading : Js.str :=
  [Js.LF; Js.LF] ++ `"This error could be caused by one of the following:"
  ++ [Js.LF].
Definition hint_invalid_url : Js.str := `" - An invalid URL" ++ [Js.LF].
Definition hint_mixed_content : Js.str :=
  `" - Making a request to an insecure resource (HTTP) from a secure source (HTTPS)"
  ++ [Js.LF].
Definition hint_cors : Js.str :=
  `" - Making a cross-origin request to a server which does not support CORS".

(** The text the [catch] clause appends. *)
Definition hint_block : Js.str :=
  hint_heading ++ hint_invalid_url ++ hint_mixed_content ++ hint_cors.

(** [Array.from(new Uint8Array(buffer))] *)
Definition Array_from_Uint8Array (buffer : list byte) : list N :=
  map Byte.to_N buffer.

(** Lines 121-137: the body of the [try] block. *)
Definition attempt (f : Js.str -> Config -> Thrown + Response)
    (targetUrl : Js.str) (config : Config) (returnType : Js.str)
  : M Value :=
  response <- await_fetch f targetUrl config ;;
  if (status response =? 0) && Js.eqb (type response) `"opaque"
  then throw (OperationError blocked_message)
  else
    let wantsBytes := Js.eqb returnType `"Bytes" in
    let selectedType := if wantsBytes then `"byteArray" else `"string" in
    set_outputType selectedType ;;;
    set_presentType selectedType ;;;
    if wantsBytes then
      buffer <- await_arrayBuffer response ;;
      ret (VArray (Array_from_Uint8Array buffer))
    else
      s <- await_text response ;;
      ret (VString s).

(** Lines 138-144: the [catch] clause. *)
Definition handler {cls : OperationErrorClass} (err : Thrown) : M Value :=
  throw (OperationError (toString err ++ hint_block)).

Definition run {cls : OperationErrorClass} {hdrs : HeadersClass}
    (host : Host) (input : Js.str) (args : Args) : M Value :=
  let method := arg_method args in
  let payload := arg_payload args in
  let headersText := arg_headersText args in
  let returnType := arg_returnType args in
  let targetUrl := Js.trim (or_empty input) in
  if (Js.length targetUrl =? 0)%Z then ret (VString [])
  else
    match fetch host with
    | None => throw (OperationError unavailable_message)
    | Some f =>
        headers <- settle (parse_headers headersText) ;;
        let config := build_config method payload headers in
        try_catch (attempt f targetUrl config returnType) handler
    end.

(** The state in which a call starts: the instance as it is, and no
    interaction yet. *)
Definition enter (op : Operation) : State := mkState op [].

End Fetch.


(* ================================================================== *)
(** ** Header lines as the specification words them

    A line of the header block, trimmed, is blank, or reads [name: value]:
    it has a colon, what stands before the first colon is not empty once
    trimmed and is the name, what stands after it, trimmed, is the value
    (possibly empty); the name and the value are ones the header set of the
    host takes. *)

Definition field : Type := Js.str * Js.str.

Inductive spec_header_line (raw : Js.str) : option field -> Prop :=
| line_blank :
    Js.trim raw = [] ->
    spec_header_line raw None
| line_field (a b : Js.str) :
    Js.trim raw = a ++ Fetch.colon :: b ->
    ~ In Fetch.colon a ->
    Js.trim a <> [] ->
    Headers.valid_name (Js.trim a) = true ->
    Headers.valid_value (Js.trim b) = true ->
    spec_header_line raw (Some (Js.trim a, Js.trim b)).

(** A well-formed line in the specification's own words alone: blank once
    trimmed, or with a colon and something other than white space before
    the first colon.  Nothing is asked of the characters of the name or of
    the value. *)
Definition spec_well_formed_line (raw : Js.str) : Prop :=
  Js.trim raw = [] \/
  exists a b, Js.trim raw = a ++ Fetch.colon :: b /\
              ~ In Fetch.colon a /\ Js.trim a <> [].

(** The fields of a block, blank lines left out. *)
Definition present (fields : list (option field)) : list field :=
  flat_map (fun o => match o with Some f => [f] | None => [] end) fields.

(** The value of the last field named [n] (up to case), [acc] if none. *)
Fixpoint last_value (n : Js.str) (fs : list field) (acc : option Js.str)
  : option Js.str :=
  match fs with
  | [] => acc
  | (k, v) :: fs' =>
      last_value n fs' (if Headers.name_eqb k n then Some v else acc)
  end.

(** The header set [l] once the field [f] is set in it. *)
Definition put (l : Headers.t) (f : field) : Headers.t :=
  Headers.set_list l (fst f) (snd f).

(** Neither end of [x] satisfies [w]. *)
Definition tight (w : N -> bool) (x : Js.str) : Prop :=
  match x with [] => True | c :: _ => w c = false end /\
  match rev x with [] => True | c :: _ => w c = false end.

(** The header [h] is named [m], up to case. *)
Definition named (m : Js.str) (h : Headers.header) : bool :=
  Headers.name_eqb (fst h) m.

(* ================================================================== *)
(** ** Sample instances, hosts and responses *)

Module Sample.

(** OperationError as a subclass of [Error] that keeps its name. *)
Definition errors : OperationErrorClass :=
  {| OperationError_name := `"Error" |}.

(** A host that words every rejection of [headers.set] the same way. *)
Definition hdrs : HeadersClass :=
  {| rejection_message := fun _ _ => `"Invalid header name or value" |}.

Definition op : Operation := mkOperation `"string" `"string".

Definition url : Js.str := `"https://example.com/".

Definition no_fetch : Host := mkHost None.

(** A host whose [fetch] settles every request the same way. *)
Definition settling (r : Thrown + Response) : Host :=
  mkHost (Some (fun _ _ => r)).

Definition ok : Response :=
  mkResponse 200 `"basic" (inr [x68; x69; xff]%byte) (inr `"hi").

Definition opaque : Response :=
  mkResponse 0 `"opaque" (inr []) (inr []).

Definition failed_to_fetch : Thrown :=
  HostError `"TypeError" `"Failed to fetch".

(** A response whose body cannot be read. *)
Definition broken : Response :=
  mkResponse 200 `"basic" (inl failed_to_fetch) (inl failed_to_fetch).

Definition get_string : Fetch.Args := Fetch.mkArgs `"GET" [] [] `"String".
Definition get_bytes : Fetch.Args := Fetch.mkArgs `"GET" [] [] `"Bytes".
Definition post : Fetch.Args :=
  Fetch.mkArgs `"POST" `"a=1" `"Accept: */*" `"String".

Definition with_headers (headersText : Js.str) : Fetch.Args :=
  Fetch.mkArgs `"GET" [] headersText `"String".

(** [run] and the header parser on the sample classes. *)
Definition run : Host -> Js.str -> Fetch.Args -> M Value :=
  Fetch.run (cls := errors) (hdrs := hdrs).

Definition parse_headers : Js.str -> Thrown + Headers.t :=
  Fetch.parse_headers (hdrs := hdrs).

End Sample.

(* ================================================================== *)
(** ** The ways through one call

    [Path host input args op out] lists what a call of [run] started on the
    instance [op] can end in: the early return, the two failures before the
    request, and, once the request is issued, its rejection, the blocked
    response, and the four endings of the body read. *)

Inductive Path {cls : OperationErrorClass} {hdrs : HeadersClass}
    (host : Host) (input : Js.str)
    (args : Fetch.Args) (op : Operation) : Completion Value * State -> Prop :=
| path_blank :
    Js.trim input = [] ->
    Path host input args op (Return (VString []), Fetch.enter op)
| path_unavailable :
    Js.trim input <> [] ->
    fetch host = None ->
    Path host input args op
      (Throw (OperationError Fetch.unavailable_message), Fetch.enter op)
| path_headers f e :
    Js.trim input <> [] ->
    fetch host = Some f ->
    Fetch.parse_headers (Fetch.arg_headersText args) = inl e ->
    Path host input args op (Throw e, Fetch.enter op)
| path_rejected f hs e :
    Js.trim input <> [] ->
    fetch host = Some f ->
    Fetch.parse_headers (Fetch.arg_headersText args) = inr hs ->
    f (Js.trim input)
      (Fetch.build_config (Fetch.arg_method args) (Fetch.arg_payload args) hs)
      = inl e ->
    Path host input args op
      (Throw (OperationError (toString e ++ Fetch.hint_block)),
       mkState op
         [Requested (Js.trim input)
            (Fetch.build_config (Fetch.arg_method args)
               (Fetch.arg_payload args) hs)])
| path_blocked f hs r :
    Js.trim input <> [] ->
    fetch host = Some f ->
    Fetch.parse_headers (Fetch.arg_headersText args) = inr hs ->
    f (Js.trim input)
      (Fetch.build_config (Fetch.arg_method args) (Fetch.arg_payload args) hs)
      = inr r ->
    status r = 0 -> type r = `"opaque" ->
    Path host input args op
      (Throw (OperationError
                (toString (OperationError Fetch.blocked_message)
                 ++ Fetch.hint_block)),
       mkState op
         [Requested (Js.trim input)
            (Fetch.build_config (Fetch.arg_method args)
               (Fetch.arg_payload args) hs)])
| path_read f hs r (c : Completion Value) :
    Js.trim input <> [] ->
    fetch host = Some f ->
    Fetch.parse_headers (Fetch.arg_headersText args) = inr hs ->
    f (Js.trim input)
      (Fetch.build_config (Fetch.arg_method args) (Fetch.arg_payload args) hs)
      = inr r ->
    ~ (status r = 0 /\ type r = `"opaque") ->
    (Fetch.arg_returnType args = `"Bytes" /\
     ((exists buffer, arrayBuffer r = inr buffer /\
         c = Return (VArray (Fetch.Array_from_Uint8Array buffer))) \/
      (exists e, arrayBuffer r = inl e /\
         c = Throw (OperationError (toString e ++ Fetch.hint_block)))) \/
     Fetch.arg_returnType args <> `"Bytes" /\
     ((exists s, text r = inr s /\ c = Return (VString s)) \/
      (exists e, text r = inl e /\
         c = Throw (OperationError (toString e ++ Fetch.hint_block))))) ->
    let wantsBytes := Js.eqb (Fetch.arg_returnType args) `"Bytes" in
    let sel := if wantsBytes then `"byteArray" else `"string" in
    Path host input args op
      (c,
       mkState (mkOperation sel sel)
         [Requested (Js.trim input)
            (Fetch.build_config (Fetch.arg_method args)
               (Fetch.arg_payload args) hs);
          Assigned_outputType sel; Assigned_presentType sel;
          if wantsBytes then Read_arrayBuffer else Read_text]).

(** The header text with every line feed turned into carriage return and
    line feed. *)
Fixpoint crlf (s : Js.str) : Js.str :=
  match s with
  | [] => []
  | c :: s' => if c =? Js.LF then Js.CR :: Js.LF :: crlf s' else c :: crlf s'
  end.

(** Two lines that are the same once trimmed. *)
Definition same_trimmed (l1 l2 : Js.str) : Prop := Js.trim l1 = Js.trim l2.

(** A response with an error status and the bodies of [Sample.ok]. *)
Definition not_found : Response :=
  mkResponse 404 `"cors" (arrayBuffer Sample.ok) (text Sample.ok).

(** The arguments [args] with the header text replaced. *)
Definition with_headersText (args : Fetch.Args) (h : Js.str) : Fetch.Args :=
  Fetch.mkArgs (Fetch.arg_method args) (Fetch.arg_payload args) h
               (Fetch.arg_returnType args).

(** The arguments [args] with the return type replaced. *)
Definition with_returnType (args : Fetch.Args) (rt : Js.str) : Fetch.Args :=
  Fetch.mkArgs (Fetch.arg_method args) (Fetch.arg_payload args)
               (Fetch.arg_headersText args) rt.

(* ================================================================== *)
(** ** Facts about the string primitives *)

Module JsFacts.
Import Js.

Lemma eqb_eq (a b : str) : eqb a b = true <-> a = b.
Proof.
  unfold eqb. destruct (list_eq_dec N.eq_dec a b); split; congruence.
Qed.

Lemma eqb_neq (a b : str) : eqb a b = false <-> a <> b.
Proof.
  unfold eqb. destruct (list_eq_dec N.eq_dec a b); split; congruence.
Qed.

Lemma eqb_refl (a : str) : eqb a a = true.
Proof. now apply eqb_eq. Qed.

Lemma length_zero (s : str) : (length s =? 0)%Z = true <-> s = [].
Proof.
  unfold length. rewrite Z.eqb_eq. destruct s; simpl; split; intros H;
    try reflexivity; try discriminate; lia.
Qed.

Lemma length_nonzero (s : str) : s <> [] -> (length s =? 0)%Z = false.
Proof.
  intros H. destruct (length s =? 0)%Z eqn:E; [|reflexivity].
  apply length_zero in E. contradiction.
Qed.

Lemma length_app (a b : str) : length (a ++ b) = (length a + length b)%Z.
Proof. unfold length. rewrite List.length_app. lia. Qed.

Lemma length_nonneg (s : str) : (0 <= length s)%Z.
Proof. unfold length. lia. Qed.

(** *** [indexOf] *)

Lemma indexOf_from_absent (c : N) (s : str) (i : Z) :
  ~ In c s -> indexOf_from c s i = (-1)%Z.
Proof.
  revert i. induction s as [|d s IH]; intros i H; simpl; [reflexivity|].
  destruct (N.eqb_spec d c) as [->|_].
  - exfalso. apply H. now left.
  - apply IH. intros Hin. apply H. now right.
Qed.

Lemma indexOf_from_first (c : N) (a b : str) (i : Z) :
  ~ In c a -> indexOf_from c (a ++ c :: b) i = (i + length a)%Z.
Proof.
  revert i. induction a as [|d a IH]; intros i H; simpl.
  - rewrite N.eqb_refl. unfold length. simpl. lia.
  - destruct (N.eqb_spec d c) as [->|_].
    + exfalso. apply H. now left.
    + rewrite IH by (intros Hin; apply H; now right).
      unfold length. simpl List.length. lia.
Qed.

Lemma indexOf_absent (s : str) (c : N) :
  ~ In c s -> (indexOf s c <? 0)%Z = true.
Proof.
  intros H. unfold indexOf. now rewrite indexOf_from_absent.
Qed.

Lemma indexOf_first (a b : str) (c : N) :
  ~ In c a -> indexOf (a ++ c :: b) c = length a.
Proof.
  intros H. unfold indexOf. now rewrite indexOf_from_first.
Qed.

(** *** [slice] around the first occurrence *)

Lemma slice_prefix (a b : str) :
  slice (a ++ b) 0 (length a) = a.
Proof.
  unfold slice, clamp. rewrite length_app.
  pose proof (length_nonneg a). pose proof (length_nonneg b).
  replace (0 <? 0)%Z with false by reflexivity.
  destruct (length a <? 0)%Z eqn:E; [apply Z.ltb_lt in E; lia|].
  rewrite Z.min_l by lia. rewrite Z.min_l by lia.
  simpl skipn. rewrite Z.sub_0_r, Z.max_l by lia.
  unfold length. rewrite Nat2Z.id.
  rewrite firstn_app, Nat.sub_diag, firstn_all. simpl. now rewrite app_nil_r.
Qed.

Lemma slice_suffix (a b : str) (c : N) :
  slice_from (a ++ c :: b) (length a + 1) = b.
Proof.
  unfold slice_from, slice, clamp.
  set (s := a ++ c :: b).
  assert (Hs : length s = (length a + 1 + length b)%Z).
  { unfold s. rewrite length_app. unfold length. simpl List.length. lia. }
  pose proof (length_nonneg a). pose proof (length_nonneg b).
  destruct (length a + 1 <? 0)%Z eqn:E1; [apply Z.ltb_lt in E1; lia|].
  destruct (length s <? 0)%Z eqn:E2; [apply Z.ltb_lt in E2; lia|].
  rewrite !Z.min_l by lia.
  rewrite Z.max_l by lia.
  replace (Z.to_nat (length a + 1)) with (List.length (a ++ [c]))
    by (rewrite List.length_app; unfold length; simpl; lia).
  replace (Z.to_nat (length s - (length a + 1))) with (List.length b)
    by (rewrite Hs; unfold length; lia).
  unfold s. replace (a ++ c :: b) with ((a ++ [c]) ++ b)
    by (now rewrite <- app_assoc).
  rewrite skipn_app, skipn_all, Nat.sub_diag. simpl skipn.
  apply firstn_all.
Qed.

End JsFacts.

(** *** [trim] *)

Module TrimFacts.
Import Js.

Lemma drop_while_head (p : N -> bool) (s : str) :
  match drop_while p s with [] => True | c :: _ => p c = false end.
Proof.
  induction s as [|c s IH]; simpl; [exact I|].
  destruct (p c) eqn:E; [exact IH|exact E].
Qed.

Lemma drop_while_all (p : N -> bool) (s : str) :
  forallb p s = true -> drop_while p s = [].
Proof.
  induction s as [|c s IH]; simpl; [reflexivity|].
  intros H. apply andb_true_iff in H as [Hc Hs]. now rewrite Hc, IH.
Qed.

Lemma drop_while_id (p : N -> bool) (s : str) :
  match s with [] => True | c :: _ => p c = false end ->
  drop_while p s = s.
Proof. destruct s as [|c s]; simpl; [reflexivity|]. now intros ->. Qed.

Lemma drop_while_keeps_last (p : N -> bool) (s : str) (c : N) :
  p c = false -> exists t, drop_while p (s ++ [c]) = t ++ [c].
Proof.
  intros Hc. induction s as [|d s IH]; simpl.
  - rewrite Hc. now exists [].
  - destruct (p d); [exact IH|]. now exists (d :: s).
Qed.

Lemma trim_all_white (s : str) : forallb is_white s = true -> trim s = [].
Proof.
  intros H. unfold trim, trimStart, trimEnd.
  now rewrite (drop_while_all _ _ H).
Qed.

Lemma trim_tight (s : str) : tight is_white (trim s).
Proof.
  unfold trim, trimStart, trimEnd. split.
  - pose proof (drop_while_head is_white s) as H.
    destruct (drop_while is_white s) as [|c t]; [exact I|].
    simpl rev.
    destruct (drop_while_keeps_last is_white (rev t) c H) as [u ->].
    rewrite rev_app_distr. exact H.
  - rewrite rev_involutive. apply drop_while_head.
Qed.

Lemma tight_weaken (w w' : N -> bool) (x : str) :
  (forall c, w' c = true -> w c = true) -> tight w x -> tight w' x.
Proof.
  intros Hw [H1 H2].
  assert (K : forall c, w c = false -> w' c = false).
  { intros c Hc. destruct (w' c) eqn:E; [|reflexivity].
    apply Hw in E. congruence. }
  split.
  - destruct x; [exact I|now apply K].
  - destruct (rev x); [exact I|now apply K].
Qed.

Lemma http_white_is_white (c : N) :
  Headers.is_http_white c = true -> is_white c = true.
Proof.
  unfold Headers.is_http_white. rewrite !orb_true_iff, !N.eqb_eq.
  intros [[[->| ->]| ->]| ->]; reflexivity.
Qed.

(** A value produced by [trim] is already normalized. *)
Lemma normalize_trim (s : str) : Headers.normalize (trim s) = trim s.
Proof.
  destruct (tight_weaken _ _ _ http_white_is_white (trim_tight s))
    as [H1 H2].
  unfold Headers.normalize.
  rewrite (drop_while_id _ _ H1), (drop_while_id _ _ H2).
  apply rev_involutive.
Qed.

End TrimFacts.

(* ================================================================== *)
(** ** Facts about the header list *)

Module HeadersFacts.
Import Headers.

Lemma name_eqb_refl (a : Js.str) : name_eqb a a = true.
Proof. apply JsFacts.eqb_refl. Qed.

Lemma name_eqb_sym (a b : Js.str) : name_eqb a b = name_eqb b a.
Proof.
  unfold name_eqb. destruct (Js.eqb (map lower b) (map lower a)) eqn:E.
  - apply JsFacts.eqb_eq in E. apply JsFacts.eqb_eq. congruence.
  - apply JsFacts.eqb_neq in E. apply JsFacts.eqb_neq. congruence.
Qed.

Lemma name_eqb_trans (a b c : Js.str) :
  name_eqb a b = true -> name_eqb b c = true -> name_eqb a c = true.
Proof.
  unfold name_eqb. rewrite !JsFacts.eqb_eq. congruence.
Qed.

(** Names equal up to case are not told apart by a third name. *)
Lemma name_eqb_congr (a b c : Js.str) :
  name_eqb a b = true -> name_eqb a c = name_eqb b c.
Proof.
  intros H. destruct (name_eqb b c) eqn:E.
  - now apply name_eqb_trans with b.
  - destruct (name_eqb a c) eqn:F; [|reflexivity].
    rewrite name_eqb_sym in H.
    now rewrite (name_eqb_trans _ _ _ H F) in E.
Qed.

Lemma named_pair (m k x : Js.str) : named m (k, x) = name_eqb k m.
Proof. reflexivity. Qed.

(** A name that differs from [n] differs from every name equal to [n]. *)
Lemma name_eqb_apart (k n m : Js.str) :
  name_eqb k n = false -> name_eqb n m = true -> name_eqb k m = false.
Proof.
  intros E H. rewrite name_eqb_sym, <- (name_eqb_congr _ _ _ H).
  now rewrite name_eqb_sym.
Qed.

Lemma filter_remove_same (n m : Js.str) (l : t) :
  name_eqb n m = true -> filter (named m) (remove n l) = [].
Proof.
  intros H. unfold remove. induction l as [|[k v] l IH]; cbn [filter fst];
    [reflexivity|].
  destruct (name_eqb k n) eqn:E; cbn [negb filter]; [exact IH|].
  now rewrite named_pair, (name_eqb_apart _ _ _ E H).
Qed.

Lemma filter_remove_other (n m : Js.str) (l : t) :
  name_eqb n m = false ->
  filter (named m) (remove n l) = filter (named m) l.
Proof.
  intros H. unfold remove. induction l as [|[k v] l IH]; cbn [filter fst];
    [reflexivity|].
  rewrite named_pair.
  destruct (name_eqb k n) eqn:E; cbn [negb filter].
  - now rewrite (name_eqb_congr _ _ _ E), H.
  - now rewrite named_pair, IH.
Qed.

Lemma filter_set_list_same (l : t) (n v m : Js.str) :
  name_eqb n m = true ->
  exists k, filter (named m) (set_list l n v) = [(k, v)].
Proof.
  intros H. induction l as [|[k w] l IH]; cbn [set_list].
  - cbn [filter]. rewrite named_pair, H. now exists n.
  - destruct (name_eqb k n) eqn:E; cbn [filter]; rewrite named_pair.
    + rewrite (name_eqb_congr _ _ _ E), H.
      rewrite (filter_remove_same _ _ _ H). now exists k.
    + now rewrite (name_eqb_apart _ _ _ E H).
Qed.

Lemma filter_set_list_other (l : t) (n v m : Js.str) :
  name_eqb n m = false ->
  filter (named m) (set_list l n v) = filter (named m) l.
Proof.
  intros H. induction l as [|[k w] l IH]; cbn [set_list].
  - cbn [filter]. now rewrite named_pair, H.
  - destruct (name_eqb k n) eqn:E; cbn [filter]; rewrite !named_pair.
    + rewrite (name_eqb_congr _ _ _ E), H.
      now apply filter_remove_other.
    + now rewrite IH.
Qed.

Lemma get_named (l : t) (m : Js.str) :
  get l m = match filter (named m) l with
            | [] => None
            | hs => Some (join `", " (map snd hs))
            end.
Proof. reflexivity. Qed.

Lemma get_set_list_same (l : t) (n v m : Js.str) :
  name_eqb n m = true -> get (set_list l n v) m = Some v.
Proof.
  intros H. rewrite get_named.
  destruct (filter_set_list_same l n v m H) as [k ->]. reflexivity.
Qed.

Lemma get_set_list_other (l : t) (n v m : Js.str) :
  name_eqb n m = false -> get (set_list l n v) m = get l m.
Proof.
  intros H. rewrite !get_named. now rewrite filter_set_list_other.
Qed.

End HeadersFacts.

(* ================================================================== *)
(** ** Facts about the header parser *)

Module ParseFacts.
Import Fetch.

Section Parse.
Context {hdrs : HeadersClass}.

Lemma header_line_blank (hs : Headers.t) (raw : Js.str) :
  Js.trim raw = [] -> header_line hs raw = inr hs.
Proof. intros H. unfold header_line. now rewrite H. Qed.


(** The two halves the callback cuts at the first colon. *)
Lemma cut_at_first_colon (a b : Js.str) :
  ~ In colon a ->
  let line := a ++ colon :: b in
  (Js.indexOf line colon <? 0)%Z = false /\
  Js.slice line 0 (Js.indexOf line colon) = a /\
  Js.slice_from line (Js.indexOf line colon + 1) = b.
Proof.
  intros H line. unfold line. rewrite (JsFacts.indexOf_first _ _ _ H).
  split; [|split].
  - pose proof (JsFacts.length_nonneg a). apply Z.ltb_ge. lia.
  - apply JsFacts.slice_prefix.
  - apply JsFacts.slice_suffix.
Qed.


Lemma header_line_field (hs : Headers.t) (raw a b : Js.str) :
  Js.trim raw = a ++ colon :: b -> ~ In colon a -> Js.trim a <> [] ->
  Headers.valid_name (Js.trim a) = true ->
  Headers.valid_value (Js.trim b) = true ->
  header_line hs raw = inr (Headers.set_list hs (Js.trim a) (Js.trim b)).
Proof.
  intros Hraw Hno Ha Hn Hv. unfold header_line. rewrite Hraw.
  destruct (cut_at_first_colon a b Hno) as (H1 & H2 & H3).
  rewrite JsFacts.length_nonzero by (now destruct a).
  rewrite H1, H2, H3, (JsFacts.length_nonzero _ Ha).
  unfold Headers.set. now rewrite TrimFacts.normalize_trim, Hn, Hv.
Qed.

Lemma header_line_spec (hs : Headers.t) (raw : Js.str) (o : option field) :
  spec_header_line raw o ->
  header_line hs raw =
  inr (match o with
       | Some f => Headers.set_list hs (fst f) (snd f)
       | None => hs
       end).
Proof.
  intros [H|a b H1 H2 H3 H4 H5].
  - now apply header_line_blank.
  - now apply header_line_field.
Qed.


Lemma forEach_spec (lines : list Js.str) (fields : list (option field)) :
  Forall2 spec_header_line lines fields ->
  forall hs, forEach lines hs = inr (fold_left put (present fields) hs).
Proof.
  induction 1 as [|raw o lines fields Hl _ IH]; intros hs; simpl;
    [reflexivity|].
  rewrite (header_line_spec hs raw o Hl), IH.
  destruct o; reflexivity.
Qed.

Lemma get_fold (fs : list field) (hs : Headers.t) (n : Js.str) :
  Headers.get (fold_left put fs hs) n = last_value n fs (Headers.get hs n).
Proof.
  revert hs. induction fs as [|[k v] fs IH]; intros hs; simpl;
    [reflexivity|].
  rewrite IH. unfold put. simpl.
  destruct (Headers.name_eqb k n) eqn:E.
  - now rewrite HeadersFacts.get_set_list_same.
  - now rewrite HeadersFacts.get_set_list_other.
Qed.

End Parse.

End ParseFacts.

(* ================================================================== *)
(** ** The paths through [run] *)

Module RunFacts.
Import Fetch.

Section Paths.
Context {cls : OperationErrorClass} {hdrs : HeadersClass}.

Lemma or_empty_id (input : Js.str) : or_empty input = input.
Proof. now destruct input. Qed.

Lemma run_blank (host : Host) (input : Js.str) (args : Args) (st : State) :
  Js.trim input = [] -> run host input args st = (Return (VString []), st).
Proof. intros H. unfold run. now rewrite or_empty_id, H. Qed.

Lemma run_unavailable (host : Host) (input : Js.str) (args : Args)
    (st : State) :
  Js.trim input <> [] -> fetch host = None ->
  run host input args st = (Throw (OperationError unavailable_message), st).
Proof.
  intros Hu Hf. unfold run.
  now rewrite or_empty_id, (JsFacts.length_nonzero _ Hu), Hf.
Qed.

Lemma run_headers_throw (host : Host) f (input : Js.str) (args : Args)
    (st : State) (e : Thrown) :
  Js.trim input <> [] -> fetch host = Some f ->
  parse_headers (arg_headersText args) = inl e ->
  run host input args st = (Throw e, st).
Proof.
  intros Hu Hf Hp. unfold run.
  rewrite or_empty_id, (JsFacts.length_nonzero _ Hu), Hf.
  unfold bind. now rewrite Hp.
Qed.

Lemma run_attempt (host : Host) f (input : Js.str) (args : Args)
    (st : State) (hs : Headers.t) :
  Js.trim input <> [] -> fetch host = Some f ->
  parse_headers (arg_headersText args) = inr hs ->
  run host input args st =
  try_catch
    (attempt f (Js.trim input)
       (build_config (arg_method args) (arg_payload args) hs)
       (arg_returnType args))
    handler st.
Proof.
  intros Hu Hf Hp. unfold run.
  rewrite or_empty_id, (JsFacts.length_nonzero _ Hu), Hf.
  unfold bind at 1. now rewrite Hp.
Qed.

Ltac step := cbn -[Js.lit Js.eqb N.eqb blocked_message].

Lemma attempt_rejected f (url : Js.str) (cfg : Config) (rt : Js.str)
    (op : Operation) (e : Thrown) :
  f url cfg = inl e ->
  attempt f url cfg rt (enter op) = (Throw e, mkState op [Requested url cfg]).
Proof.
  intros H. unfold attempt, await_fetch, bind, emit, settle, enter.
  step. now rewrite H.
Qed.

Lemma attempt_blocked f (url : Js.str) (cfg : Config) (rt : Js.str)
    (op : Operation) (r : Response) :
  f url cfg = inr r ->
  (status r =? 0) && Js.eqb (type r) `"opaque" = true ->
  attempt f url cfg rt (enter op) =
  (Throw (OperationError blocked_message), mkState op [Requested url cfg]).
Proof.
  intros H B. unfold attempt, await_fetch, bind, emit, settle, enter.
  step. rewrite H. unfold ret. now rewrite B.
Qed.

Lemma attempt_passed f (url : Js.str) (cfg : Config) (rt : Js.str)
    (op : Operation) (r : Response) :
  f url cfg = inr r ->
  (status r =? 0) && Js.eqb (type r) `"opaque" = false ->
  let wantsBytes := Js.eqb rt `"Bytes" in
  let sel := if wantsBytes then `"byteArray" else `"string" in
  attempt f url cfg rt (enter op) =
  (if wantsBytes then
     match arrayBuffer r with
     | inl e => Throw e
     | inr buffer => Return (VArray (Array_from_Uint8Array buffer))
     end
   else
     match text r with
     | inl e => Throw e
     | inr s => Return (VString s)
     end,
   mkState (mkOperation sel sel)
     [Requested url cfg; Assigned_outputType sel; Assigned_presentType sel;
      if wantsBytes then Read_arrayBuffer else Read_text]).
Proof.
  intros H B. cbv zeta.
  unfold attempt, await_fetch, bind, emit, settle, enter.
  step. rewrite H. unfold ret. rewrite B.
  destruct (Js.eqb rt `"Bytes").
  - unfold set_outputType, set_presentType, await_arrayBuffer, bind, emit,
      settle. step. now destruct (arrayBuffer r).
  - unfold set_outputType, set_presentType, await_text, bind, emit,
      settle. step. now destruct (text r).
Qed.

Lemma Error_toString_length (n m : Js.str) :
  (List.length m <= List.length (Error_toString n m))%nat.
Proof.
  unfold Error_toString. destruct n as [|c n]; [lia|].
  destruct m as [|d m]; [simpl; lia|].
  rewrite !List.length_app. lia.
Qed.

(** Whatever the name, a description followed by a non-empty text is not
    the message described. *)
Lemma wrapped_differs (m c : Js.str) :
  c <> [] -> toString (OperationError m) ++ c <> m.
Proof.
  intros Hc K. apply (f_equal (@List.length N)) in K.
  rewrite List.length_app in K. simpl toString in K.
  pose proof (Error_toString_length OperationError_name m).
  destruct c; [contradiction|]. simpl in K. lia.
Qed.

Lemma not_blocked (r : Response) :
  ~ (status r = 0 /\ type r = `"opaque") ->
  (status r =? 0) && Js.eqb (type r) `"opaque" = false.
Proof.
  intros H. destruct (N.eqb_spec (status r) 0) as [E|_]; [|reflexivity].
  destruct (Js.eqb (type r) `"opaque") eqn:T; [|reflexivity].
  apply JsFacts.eqb_eq in T. exfalso. now apply H.
Qed.

Lemma Throw_OperationError_inj {A} (a b : Js.str) :
  @Throw A (OperationError a) = Throw (OperationError b) -> a = b.
Proof. intros H. now inversion H. Qed.

Lemma handled (m : M Value) (s : State) :
  try_catch m handler s =
  match m s with
  | (Return a, s') => (Return a, s')
  | (Throw e, s') => (Throw (OperationError (toString e ++ hint_block)), s')
  end.
Proof. reflexivity. Qed.

Lemma build_config_fields (m p : Js.str) (hs : Headers.t) :
  let cfg := build_config m p hs in
  method cfg = m /\ headers cfg = hs /\ cache cfg = `"no-cache" /\
  body cfg =
    if negb (Js.eqb m `"GET") && negb (Js.eqb m `"HEAD")
       && negb (Js.eqb p [])
    then Some p else None.
Proof.
  cbv zeta. unfold build_config.
  assert (E : (Js.length p >? 0)%Z = negb (Js.eqb p [])).
  { destruct p; [reflexivity|]. unfold Js.length. simpl List.length.
    rewrite Z.gtb_ltb. destruct (Z.ltb_spec 0 (Z.of_nat (S (List.length p))));
      [reflexivity|lia]. }
  rewrite E.
  destruct (negb (Js.eqb m `"GET") && negb (Js.eqb m `"HEAD")
            && negb (Js.eqb p [])); repeat split.
Qed.

(** Once the configuration is built the request is issued, first of all
    interactions. *)
Lemma attempt_requests f (url : Js.str) (cfg : Config) (rt : Js.str)
    (op : Operation) :
  exists evs,
    log (snd (try_catch (attempt f url cfg rt) handler (enter op))) =
    Requested url cfg :: evs.
Proof.
  rewrite handled. destruct (f url cfg) as [e|r] eqn:F.
  - rewrite (attempt_rejected _ _ _ _ _ _ F). now exists [].
  - destruct ((status r =? 0) && Js.eqb (type r) `"opaque") eqn:B.
    + rewrite (attempt_blocked _ _ _ _ _ _ F B). now exists [].
    + rewrite (attempt_passed _ _ _ _ op _ F B).
      destruct (Js.eqb rt `"Bytes").
      * destruct (arrayBuffer r); eexists; reflexivity.
      * destruct (text r); eexists; reflexivity.
Qed.

End Paths.

End RunFacts.

(* ================================================================== *)
(** ** Properties of [Fetch.run] *)

Import Fetch.

(** C2: when the trimmed input is empty (the input may be empty or made of
    white space only), [run] returns the empty string and leaves the state
    it started in untouched: the instance keeps its declared types and the
    log stays empty, so no request reached the transport.  This holds for
    every host and every value of the four arguments. *)
Theorem run_blank_input {cls : OperationErrorClass} {hdrs : HeadersClass}
    (host : Host)
    (input : Js.str) (args : Args)
    (op : Operation) :
  Js.trim input = [] ->
  run host input args (enter op) = (Return (VString []), enter op).
Proof. intros H. now apply RunFacts.run_blank. Qed.

Lemma run_blank_input_witness :
  Js.trim `"   " = [] /\
  Sample.run (Sample.settling (inr Sample.ok)) `"   " Sample.post
             (enter Sample.op)
  = (Return (VString []), enter Sample.op).
Proof.
  split; [reflexivity|]. apply (run_blank_input (cls := Sample.errors)
      (hdrs := Sample.hdrs)).
  apply TrimFacts.trim_all_white. reflexivity.
Defined.

(** C6, as the code has it: with a non-empty trimmed URL and no [fetch] in
    the environment, [run] fails with the OperationError whose message is
    "Fetch API is not available in this environment." (with its final full
    stop), whatever the header text is, and it performs no interaction
    before failing. *)
Theorem run_without_fetch {cls : OperationErrorClass} {hdrs : HeadersClass}
    (host : Host)
    (input : Js.str) (args : Args)
    (op : Operation) :
  Js.trim input <> [] ->
  fetch host = None ->
  run host input args (enter op) =
  (Throw (OperationError `"Fetch API is not available in this environment."),
   enter op).
Proof. intros Hu Hf. now apply RunFacts.run_unavailable. Qed.

Lemma run_without_fetch_witness :
  Js.trim Sample.url <> [] /\ fetch Sample.no_fetch = None /\
  Sample.run Sample.no_fetch Sample.url (Sample.with_headers `"no colon here")
      (enter Sample.op) =
  (Throw (OperationError `"Fetch API is not available in this environment."),
   enter Sample.op).
Proof.
  split; [discriminate|]. split; [reflexivity|].
  apply (run_without_fetch (cls := Sample.errors)
      (hdrs := Sample.hdrs)); [discriminate|reflexivity].
Defined.

(** C6, as the claim words it, fails: the message the code raises is not
    the sentence without the full stop. *)
Lemma claimed_unavailable_message_refuted :
  fst (Sample.run Sample.no_fetch Sample.url Sample.get_string
                  (enter Sample.op)) <>
  Throw (OperationError `"Fetch API is not available in this environment").
Proof. vm_compute. discriminate. Qed.

(** C1, evaluated on the code: a response with status 0 and classification
    "opaque" makes [run] raise the blocked-response error inside the [try]
    block, so the [catch] clause receives it and raises instead an
    OperationError whose message is that error's description
    ([err.toString()]) followed by the hint block; the result is not the
    error with the message
    "Error: Null response. Try setting the connection mode to CORS.". *)
Theorem run_blocked_response_wrapped {cls : OperationErrorClass}
    {hdrs : HeadersClass}
    (host : Host)
    (f : Js.str -> Config -> Thrown + Response) (input : Js.str)
    (args : Args) (op : Operation) (hs : Headers.t) (r : Response) :
  Js.trim input <> [] ->
  fetch host = Some f ->
  parse_headers (arg_headersText args) = inr hs ->
  f (Js.trim input) (build_config (arg_method args) (arg_payload args) hs)
    = inr r ->
  status r = 0 ->
  type r = `"opaque" ->
  let blocked :=
    OperationError
      `"Error: Null response. Try setting the connection mode to CORS." in
  let result := fst (run host input args (enter op)) in
  result = Throw (OperationError (toString blocked ++ hint_block)) /\
  result <> Throw blocked.
Proof.
  intros Hu Hf Hp Hr Hs Ht blocked result.
  assert (R : result = Throw (OperationError (toString blocked ++ hint_block))).
  { unfold result. rewrite (RunFacts.run_attempt _ _ _ _ _ _ Hu Hf Hp).
    rewrite RunFacts.handled, (RunFacts.attempt_blocked _ _ _ _ _ _ Hr).
    - reflexivity.
    - rewrite Hs, Ht. reflexivity. }
  split; [exact R|].
  rewrite R. intros K. apply RunFacts.Throw_OperationError_inj in K.
  revert K. apply RunFacts.wrapped_differs. discriminate.
Qed.

Lemma run_blocked_response_wrapped_witness :
  let result :=
    fst (Sample.run (Sample.settling (inr Sample.opaque))
             Sample.url Sample.get_string (enter Sample.op)) in
  result =
    Throw (OperationError
             (`"Error: Error: Null response. Try setting the connection mode to CORS."
              ++ hint_block)) /\
  result <>
    Throw (OperationError
             `"Error: Null response. Try setting the connection mode to CORS.").
Proof.
  apply (run_blocked_response_wrapped (cls := Sample.errors)
      (hdrs := Sample.hdrs)
           (Sample.settling (inr Sample.opaque))
           (fun _ _ => inr Sample.opaque) Sample.url Sample.get_string
           Sample.op [] Sample.opaque);
    try reflexivity. discriminate.
Defined.

(** C5: whenever [run] gets as far as building the configuration, the
    request is issued with it, and the configuration carries a body exactly
    when the method is neither "GET" nor "HEAD" and the payload is not
    empty; a body that is attached is the payload itself.  A payload given
    with GET or HEAD is left out and the request goes out all the same. *)
Theorem request_body {cls : OperationErrorClass} {hdrs : HeadersClass}
    (host : Host)
    (f : Js.str -> Config -> Thrown + Response) (input : Js.str)
    (args : Args) (op : Operation) (hs : Headers.t) :
  Js.trim input <> [] ->
  fetch host = Some f ->
  parse_headers (arg_headersText args) = inr hs ->
  exists cfg evs,
    log (snd (run host input args (enter op))) =
      Requested (Js.trim input) cfg :: evs /\
    ((exists b, body cfg = Some b) <->
     (arg_method args <> `"GET" /\ arg_method args <> `"HEAD" /\
      arg_payload args <> [])) /\
    (forall b, body cfg = Some b -> b = arg_payload args).
Proof.
  intros Hu Hf Hp.
  exists (build_config (arg_method args) (arg_payload args) hs).
  rewrite (RunFacts.run_attempt _ _ _ _ _ _ Hu Hf Hp).
  destruct (RunFacts.attempt_requests f (Js.trim input)
              (build_config (arg_method args) (arg_payload args) hs)
              (arg_returnType args) op) as [evs Hevs].
  exists evs. split; [exact Hevs|].
  destruct (RunFacts.build_config_fields (arg_method args)
              (arg_payload args) hs) as (_ & _ & _ & ->).
  destruct (Js.eqb (arg_method args) `"GET") eqn:G;
    [apply JsFacts.eqb_eq in G|apply JsFacts.eqb_neq in G];
  (destruct (Js.eqb (arg_method args) `"HEAD") eqn:H;
    [apply JsFacts.eqb_eq in H|apply JsFacts.eqb_neq in H]);
  (destruct (Js.eqb (arg_payload args) []) eqn:P;
    [apply JsFacts.eqb_eq in P|apply JsFacts.eqb_neq in P]);
  cbn [negb andb]; (split; [split|]);
    try (intros [b Hb]; discriminate);
    try (intros (A & B & C); congruence);
    try (intros b Hb; congruence).
  - intros _. auto.
  - intros _. eauto.
Qed.

Lemma request_body_witness :
  exists cfg evs,
    log (snd (Sample.run (Sample.settling (inr Sample.ok)) Sample.url
                         Sample.post
                  (enter Sample.op))) =
      Requested (Js.trim Sample.url) cfg :: evs /\
    ((exists b, body cfg = Some b) <->
     (arg_method Sample.post <> `"GET" /\ arg_method Sample.post <> `"HEAD" /\
      arg_payload Sample.post <> [])) /\
    (forall b, body cfg = Some b -> b = arg_payload Sample.post).
Proof.
  apply (request_body (cls := Sample.errors)
      (hdrs := Sample.hdrs) (Sample.settling (inr Sample.ok))
           (fun _ _ => inr Sample.ok) Sample.url Sample.post Sample.op
           [(`"Accept", `"*/*")]);
    [discriminate|reflexivity|reflexivity].
Defined.

(** C7: when the request resolves to a response that is not the blocked
    one and the body is read, then with return type "Bytes" [run] leaves
    both declared types at "byteArray" and returns an array as long as the
    body, whose i-th element is the value of the i-th byte and lies in
    [0,255]; with return type "String" it leaves both declared types at
    "string" and returns the text of the body. *)
Theorem run_success {cls : OperationErrorClass} {hdrs : HeadersClass}
    (host : Host)
    (f : Js.str -> Config -> Thrown + Response) (input : Js.str)
    (args : Args) (op : Operation) (hs : Headers.t) (r : Response) :
  Js.trim input <> [] ->
  fetch host = Some f ->
  parse_headers (arg_headersText args) = inr hs ->
  f (Js.trim input) (build_config (arg_method args) (arg_payload args) hs)
    = inr r ->
  ~ (status r = 0 /\ type r = `"opaque") ->
  let out := run host input args (enter op) in
  (arg_returnType args = `"Bytes" ->
   forall buffer, arrayBuffer r = inr buffer ->
   exists values,
     fst out = Return (VArray values) /\
     this (snd out) = mkOperation `"byteArray" `"byteArray" /\
     List.length values = List.length buffer /\
     (forall i, nth_error values i = option_map Byte.to_N (nth_error buffer i))
     /\ Forall (fun v => 0 <= v <= 255) values) /\
  (arg_returnType args = `"String" ->
   forall s, text r = inr s ->
     fst out = Return (VString s) /\
     this (snd out) = mkOperation `"string" `"string").
Proof.
  intros Hu Hf Hp Hr Hb out. unfold out.
  rewrite (RunFacts.run_attempt _ _ _ _ _ _ Hu Hf Hp), RunFacts.handled.
  rewrite (RunFacts.attempt_passed _ _ _ _ op _ Hr (RunFacts.not_blocked _ Hb)).
  split.
  - intros Hrt buffer Hbuf. rewrite Hrt, Hbuf.
    exists (Array_from_Uint8Array buffer). unfold Array_from_Uint8Array.
    repeat split.
    + apply length_map.
    + intros i. apply nth_error_map.
    + apply Forall_forall. intros v Hv. apply in_map_iff in Hv as (b & <- & _).
      split; [apply N.le_0_l|apply Byte.to_N_bounded].
  - intros Hrt s Hs. rewrite Hrt, Hs. split; reflexivity.
Qed.

Lemma run_success_witness :
  let bytes := Sample.run (Sample.settling (inr Sample.ok)) Sample.url
                   Sample.get_bytes (enter Sample.op) in
  let string := Sample.run (Sample.settling (inr Sample.ok)) Sample.url
                    Sample.get_string (enter Sample.op) in
  (exists values,
     fst bytes = Return (VArray values) /\
     this (snd bytes) = mkOperation `"byteArray" `"byteArray" /\
     List.length values = 3%nat /\
     (forall i, nth_error values i =
                option_map Byte.to_N (nth_error [x68; x69; xff]%byte i)) /\
     Forall (fun v => 0 <= v <= 255) values) /\
  fst string = Return (VString `"hi") /\
  this (snd string) = mkOperation `"string" `"string".
Proof.
  assert (B : ~ (status Sample.ok = 0 /\ type Sample.ok = `"opaque"))
    by (intros [E _]; discriminate).
  assert (U : Js.trim Sample.url <> []) by discriminate.
  intros bytes string. split.
  - destruct (run_success (cls := Sample.errors) (hdrs := Sample.hdrs)
                (Sample.settling (inr Sample.ok))
                (fun _ _ => inr Sample.ok) Sample.url Sample.get_bytes
                Sample.op [] Sample.ok U eq_refl eq_refl eq_refl B)
      as [H _].
    exact (H eq_refl _ eq_refl).
  - destruct (run_success (cls := Sample.errors) (hdrs := Sample.hdrs)
                (Sample.settling (inr Sample.ok))
                (fun _ _ => inr Sample.ok) Sample.url Sample.get_string
                Sample.op [] Sample.ok U eq_refl eq_refl eq_refl B)
      as [_ H].
    exact (H eq_refl _ eq_refl).
Defined.

(** C8: when the request is rejected, or the response is not the blocked
    one and reading its body fails, [run] fails with the OperationError
    whose message is the description of that failure ([err.toString()])
    followed by the hint block; the block names, in this order, an invalid
    URL, a request to an insecure (HTTP) resource from a secure (HTTPS)
    source, and a cross-origin request to a server without CORS. *)
Theorem run_transport_failure {cls : OperationErrorClass} {hdrs : HeadersClass}
    (host : Host)
    (f : Js.str -> Config -> Thrown + Response) (input : Js.str)
    (args : Args) (op : Operation) (hs : Headers.t) (err : Thrown) :
  Js.trim input <> [] ->
  fetch host = Some f ->
  parse_headers (arg_headersText args) = inr hs ->
  let cfg := build_config (arg_method args) (arg_payload args) hs in
  (f (Js.trim input) cfg = inl err \/
   exists r, f (Js.trim input) cfg = inr r /\
     ~ (status r = 0 /\ type r = `"opaque") /\
     ((arg_returnType args = `"Bytes" /\ arrayBuffer r = inl err) \/
      (arg_returnType args <> `"Bytes" /\ text r = inl err))) ->
  fst (run host input args (enter op)) =
    Throw (OperationError (toString err ++ hint_block)) /\
  hint_block =
    [Js.LF; Js.LF] ++
    `"This error could be caused by one of the following:" ++ [Js.LF] ++
    `" - An invalid URL" ++ [Js.LF] ++
    `" - Making a request to an insecure resource (HTTP) from a secure source (HTTPS)"
    ++ [Js.LF] ++
    `" - Making a cross-origin request to a server which does not support CORS".
Proof.
  intros Hu Hf Hp cfg H. split; [|reflexivity].
  rewrite (RunFacts.run_attempt _ _ _ _ _ _ Hu Hf Hp), RunFacts.handled.
  fold cfg. destruct H as [Hr|(r & Hr & Hb & Hread)].
  - now rewrite (RunFacts.attempt_rejected _ _ _ _ _ _ Hr).
  - rewrite (RunFacts.attempt_passed _ _ _ _ op _ Hr
               (RunFacts.not_blocked _ Hb)).
    destruct Hread as [[Hrt Hread]|[Hrt Hread]].
    + now rewrite Hrt, Hread.
    + apply JsFacts.eqb_neq in Hrt. now rewrite Hrt, Hread.
Qed.

Lemma run_transport_failure_witness :
  fst (Sample.run (Sample.settling (inl Sample.failed_to_fetch)) Sample.url
           Sample.post (enter Sample.op)) =
    Throw (OperationError (`"TypeError: Failed to fetch" ++ hint_block)) /\
  hint_block =
    [Js.LF; Js.LF] ++
    `"This error could be caused by one of the following:" ++ [Js.LF] ++
    `" - An invalid URL" ++ [Js.LF] ++
    `" - Making a request to an insecure resource (HTTP) from a secure source (HTTPS)"
    ++ [Js.LF] ++
    `" - Making a cross-origin request to a server which does not support CORS".
Proof.
  apply (run_transport_failure (cls := Sample.errors) (hdrs := Sample.hdrs)
           (Sample.settling (inl Sample.failed_to_fetch))
           (fun _ _ => inl Sample.failed_to_fetch) Sample.url Sample.post
           Sample.op [(`"Accept", `"*/*")] Sample.failed_to_fetch);
    [discriminate|reflexivity|reflexivity|left; reflexivity].
Defined.

(** C9: once the response has passed the blocked-response check, both
    declared types are assigned the selected type ("byteArray" for "Bytes",
    "string" otherwise) after the request and before the single body read,
    so they hold that type at the end of the call whether the read
    succeeds or fails. *)
Theorem declared_type_set_before_read {cls : OperationErrorClass}
    {hdrs : HeadersClass}
    (host : Host)
    (f : Js.str -> Config -> Thrown + Response) (input : Js.str)
    (args : Args) (op : Operation) (hs : Headers.t) (r : Response) :
  Js.trim input <> [] ->
  fetch host = Some f ->
  parse_headers (arg_headersText args) = inr hs ->
  let cfg := build_config (arg_method args) (arg_payload args) hs in
  f (Js.trim input) cfg = inr r ->
  ~ (status r = 0 /\ type r = `"opaque") ->
  let wantsBytes := Js.eqb (arg_returnType args) `"Bytes" in
  let sel := if wantsBytes then `"byteArray" else `"string" in
  let final := snd (run host input args (enter op)) in
  this final = mkOperation sel sel /\
  log final =
    [Requested (Js.trim input) cfg;
     Assigned_outputType sel; Assigned_presentType sel;
     if wantsBytes then Read_arrayBuffer else Read_text].
Proof.
  intros Hu Hf Hp cfg Hr Hb wantsBytes sel final. unfold final.
  rewrite (RunFacts.run_attempt _ _ _ _ _ _ Hu Hf Hp), RunFacts.handled.
  fold cfg.
  rewrite (RunFacts.attempt_passed _ _ _ _ op _ Hr (RunFacts.not_blocked _ Hb)).
  fold wantsBytes. fold sel.
  destruct wantsBytes.
  - destruct (arrayBuffer r); split; reflexivity.
  - destruct (text r); split; reflexivity.
Qed.

Lemma declared_type_set_before_read_witness :
  let out := Sample.run (Sample.settling (inr Sample.broken)) Sample.url
                 Sample.get_bytes (enter Sample.op) in
  (exists e, fst out = Throw e) /\
  this (snd out) = mkOperation `"byteArray" `"byteArray" /\
  log (snd out) =
    [Requested Sample.url (build_config `"GET" [] []);
     Assigned_outputType `"byteArray"; Assigned_presentType `"byteArray";
     Read_arrayBuffer].
Proof.
  intros out. split; [eexists; reflexivity|].
  apply (declared_type_set_before_read (cls := Sample.errors)
      (hdrs := Sample.hdrs)
           (Sample.settling (inr Sample.broken))
           (fun _ _ => inr Sample.broken) Sample.url Sample.get_bytes
           Sample.op [] Sample.broken);
    try reflexivity; [discriminate|intros [E _]; discriminate].
Defined.

(** C10: a call that fails because [fetch] is absent, because the header
    text does not parse, because the request is rejected, or because the
    response is the blocked one, leaves [outputType] and [presentType] as
    they were before the call. *)
Theorem early_failure_keeps_types {cls : OperationErrorClass}
    {hdrs : HeadersClass}
    (host : Host)
    (input : Js.str)
    (args : Args) (op : Operation) :
  Js.trim input <> [] ->
  (fetch host = None \/
   (exists e, parse_headers (arg_headersText args) = inl e) \/
   (exists f hs, fetch host = Some f /\
      parse_headers (arg_headersText args) = inr hs /\
      let cfg := build_config (arg_method args) (arg_payload args) hs in
      ((exists e, f (Js.trim input) cfg = inl e) \/
       (exists r, f (Js.trim input) cfg = inr r /\
                  status r = 0 /\ type r = `"opaque")))) ->
  let out := run host input args (enter op) in
  (exists e, fst out = Throw e) /\ this (snd out) = op.
Proof.
  intros Hu H out. unfold out.
  destruct (fetch host) as [f|] eqn:Hf.
  - destruct H as [H|[[e Hp]|(f' & hs & Hf' & Hp & Hr)]]; [discriminate| |].
    + rewrite (RunFacts.run_headers_throw _ _ _ _ _ _ Hu Hf Hp).
      split; [now exists e|reflexivity].
    + injection Hf' as <-.
      rewrite (RunFacts.run_attempt _ _ _ _ _ _ Hu Hf Hp), RunFacts.handled.
      cbv zeta in Hr. destruct Hr as [[e Hr]|(r & Hr & Hs & Ht)].
      * rewrite (RunFacts.attempt_rejected _ _ _ _ _ _ Hr).
        split; [eexists; reflexivity|reflexivity].
      * rewrite (RunFacts.attempt_blocked _ _ _ _ _ _ Hr)
          by (rewrite Hs, Ht; reflexivity).
        split; [eexists; reflexivity|reflexivity].
  - rewrite (RunFacts.run_unavailable _ _ _ _ Hu Hf).
    split; [eexists; reflexivity|reflexivity].
Qed.

Lemma early_failure_keeps_types_witness :
  let out := Sample.run (Sample.settling (inl Sample.failed_to_fetch))
                        Sample.url
                 Sample.get_bytes (enter Sample.op) in
  (exists e, fst out = Throw e) /\ this (snd out) = Sample.op.
Proof.
  apply (early_failure_keeps_types (cls := Sample.errors) (hdrs := Sample.hdrs)
           (Sample.settling (inl Sample.failed_to_fetch)) Sample.url
           Sample.get_bytes Sample.op); [discriminate|].
  right. right. exists (fun _ _ => inl Sample.failed_to_fetch), [].
  split; [reflexivity|]. split; [reflexivity|].
  left. now exists Sample.failed_to_fetch.
Defined.




(** C4, as the code has it: for a header text each of whose lines is blank
    once trimmed or reads [name: value] (cut at its first colon, both
    parts trimmed, the value possibly empty) with a name and a value that
    the header set of the host takes, the parser succeeds, blank lines
    contribute nothing, and for every name the header set holds the value
    of the last line carrying that name, or no header if no line carries
    it; this header set is the one the request is issued with. *)
Theorem parse_headers_well_formed {hdrs : HeadersClass}
    (headersText : Js.str)
    (fields : list (option field)) :
  Forall2 spec_header_line (Js.split_lines headersText) fields ->
  exists hs,
    parse_headers headersText = inr hs /\
    (forall n, Headers.get hs n = last_value n (present fields) None) /\
    (forall (cls : OperationErrorClass) host f input args op,
       Js.trim input <> [] ->
       fetch host = Some f ->
       arg_headersText args = headersText ->
       exists cfg evs,
         log (snd (run host input args (enter op))) =
           Requested (Js.trim input) cfg :: evs /\
         headers cfg = hs).
Proof.
  intros H. unfold parse_headers.
  rewrite (ParseFacts.forEach_spec _ _ H).
  eexists. split; [reflexivity|]. split.
  - intros n. now rewrite ParseFacts.get_fold.
  - intros cls host f input args op Hu Hf Ht.
    assert (Hp : parse_headers (arg_headersText args) =
                 inr (fold_left put (present fields) Headers.empty)).
    { rewrite Ht. unfold parse_headers.
      now rewrite (ParseFacts.forEach_spec _ _ H). }
    rewrite (RunFacts.run_attempt _ _ _ _ _ _ Hu Hf Hp).
    destruct (RunFacts.attempt_requests f (Js.trim input)
                (build_config (arg_method args) (arg_payload args)
                   (fold_left put (present fields) Headers.empty))
                (arg_returnType args) op) as [evs Hevs].
    eexists. exists evs. split; [exact Hevs|].
    apply RunFacts.build_config_fields.
Qed.

Lemma parse_headers_well_formed_witness :
  (exists hs, Sample.parse_headers `"X-Foo:" = inr hs /\
              Headers.get hs `"X-Foo" = Some [] /\
              Headers.get hs `"A" = None) /\
  (exists hs, Sample.parse_headers (`"A: 1" ++ [Js.LF] ++ `"A: 2") = inr hs /\
              Headers.get hs `"A" = Some `"2") /\
  (exists hs, Sample.parse_headers
                (`" Accept : text/html" ++ [Js.CR; Js.LF] ++ `"   " ++
                 [Js.LF] ++ `"accept:*/*") = inr hs /\
              Headers.get hs `"Accept" = Some `"*/*").
Proof.
  assert (C : forall a, ~ In colon a <->
                        forallb (fun c => negb (c =? colon)) a = true).
  { intros a. rewrite forallb_forall. split.
    - intros H c Hc. destruct (N.eqb_spec c colon) as [->|_];
        [contradiction|reflexivity].
    - intros H Hin. apply H in Hin. now rewrite N.eqb_refl in Hin. }
  split; [|split].
  - destruct (parse_headers_well_formed (hdrs := Sample.hdrs) `"X-Foo:"
                [Some (Js.trim `"X-Foo", Js.trim [])]) as (hs & Hp & Hg & _).
    + constructor; [|constructor].
      apply (line_field _ `"X-Foo" []);
        try reflexivity; [now apply C|discriminate].
    + exists hs. split; [exact Hp|]. now rewrite !Hg.
  - destruct (parse_headers_well_formed (hdrs := Sample.hdrs)
      (`"A: 1" ++ [Js.LF] ++ `"A: 2")
                [Some (Js.trim `"A", Js.trim `" 1");
                 Some (Js.trim `"A", Js.trim `" 2")]) as (hs & Hp & Hg & _).
    + constructor; [|constructor; [|constructor]].
      * apply (line_field _ `"A" `" 1");
          try reflexivity; [now apply C|discriminate].
      * apply (line_field _ `"A" `" 2");
          try reflexivity; [now apply C|discriminate].
    + exists hs. split; [exact Hp|]. now rewrite Hg.
  - destruct (parse_headers_well_formed (hdrs := Sample.hdrs)
                (`" Accept : text/html" ++ [Js.CR; Js.LF] ++ `"   " ++
                 [Js.LF] ++ `"accept:*/*")
                [Some (Js.trim `"Accept ", Js.trim `" text/html"); None;
                 Some (Js.trim `"accept", Js.trim `"*/*")])
      as (hs & Hp & Hg & _).
    + constructor; [|constructor; [|constructor; [|constructor]]].
      * apply (line_field _ `"Accept " `" text/html");
          try reflexivity; [now apply C|discriminate].
      * now apply line_blank.
      * apply (line_field _ `"accept" `"*/*");
          try reflexivity; [now apply C|discriminate].
    + exists hs. split; [exact Hp|]. now rewrite Hg.
Defined.

(** C4, as the claim words it, fails: the line "X Foo: 1" has a colon and a
    name before it, so the block is well formed in the specification's
    words, but the name is no token: [headers.set] rejects it and the
    call ends with the [TypeError] of the host, no header set being
    built. *)
Lemma well_formed_line_rejected_by_headers :
  Forall spec_well_formed_line (Js.split_lines `"X Foo: 1") /\
  Sample.parse_headers `"X Foo: 1" =
    inl (TypeError (hdrs := Sample.hdrs) `"X Foo" `"1") /\
  Sample.run (Sample.settling (inr Sample.ok)) Sample.url
             (Sample.with_headers `"X Foo: 1") (enter Sample.op) =
    (Throw (TypeError (hdrs := Sample.hdrs) `"X Foo" `"1"), enter Sample.op).
Proof.
  split; [|split; reflexivity].
  constructor; [|constructor].
  right. exists `"X Foo", `" 1".
  split; [reflexivity|]. split; [|discriminate].
  vm_compute. intuition discriminate.
Qed.

(* ================================================================== *)
(** ** Every call follows one of the paths *)

Module PathFacts.
Import Fetch.

Section Paths.
Context {cls : OperationErrorClass} {hdrs : HeadersClass}.

Lemma blocked_true (r : Response) :
  (status r =? 0) && Js.eqb (type r) `"opaque" = true ->
  status r = 0 /\ type r = `"opaque".
Proof.
  intros H. apply andb_true_iff in H as [H1 H2].
  apply N.eqb_eq in H1. apply JsFacts.eqb_eq in H2. now split.
Qed.

Lemma blocked_false (r : Response) :
  (status r =? 0) && Js.eqb (type r) `"opaque" = false ->
  ~ (status r = 0 /\ type r = `"opaque").
Proof.
  intros H [H1 H2]. rewrite H1, H2 in H. discriminate.
Qed.

Lemma run_path (host : Host) (input : Js.str) (args : Args)
    (op : Operation) :
  Path host input args op (run host input args (enter op)).
Proof.
  destruct (list_eq_dec N.eq_dec (Js.trim input) []) as [Hb|Hu].
  { rewrite (RunFacts.run_blank _ _ _ _ Hb). now constructor. }
  destruct (fetch host) as [f|] eqn:Hf.
  2:{ rewrite (RunFacts.run_unavailable _ _ _ _ Hu Hf). now constructor. }
  destruct (parse_headers (arg_headersText args)) as [e|hs] eqn:Hp.
  { rewrite (RunFacts.run_headers_throw _ _ _ _ _ _ Hu Hf Hp).
    now apply path_headers with f. }
  rewrite (RunFacts.run_attempt _ _ _ _ _ _ Hu Hf Hp), RunFacts.handled.
  destruct (f (Js.trim input)
              (build_config (arg_method args) (arg_payload args) hs))
    as [e|r] eqn:Hr.
  { rewrite (RunFacts.attempt_rejected _ _ _ _ _ _ Hr).
    now apply path_rejected with f. }
  destruct ((status r =? 0) && Js.eqb (type r) `"opaque") eqn:B.
  { rewrite (RunFacts.attempt_blocked _ _ _ _ _ _ Hr B).
    destruct (blocked_true _ B). now apply path_blocked with f r. }
  rewrite (RunFacts.attempt_passed _ _ _ _ op _ Hr B).
  pose proof (blocked_false _ B) as NB.
  destruct (Js.eqb (arg_returnType args) `"Bytes") eqn:W.
  - apply JsFacts.eqb_eq in W.
    destruct (arrayBuffer r) as [e|buffer] eqn:A.
    + pose proof (path_read host input args op f hs r
        (Throw (OperationError (toString e ++ hint_block))) Hu Hf Hp Hr NB)
        as P.
      cbv zeta in P. rewrite W in P. apply P. left. split; [reflexivity|].
      right. now exists e.
    + pose proof (path_read host input args op f hs r
        (Return (VArray (Array_from_Uint8Array buffer))) Hu Hf Hp Hr NB)
        as P.
      cbv zeta in P. rewrite W in P. apply P. left. split; [reflexivity|].
      left. now exists buffer.
  - pose proof W as W'. apply JsFacts.eqb_neq in W'.
    destruct (text r) as [e|s] eqn:A.
    + pose proof (path_read host input args op f hs r
        (Throw (OperationError (toString e ++ hint_block))) Hu Hf Hp Hr NB)
        as P.
      cbv zeta in P. rewrite W in P. apply P. right. split; [exact W'|].
      right. now exists e.
    + pose proof (path_read host input args op f hs r
        (Return (VString s)) Hu Hf Hp Hr NB) as P.
      cbv zeta in P. rewrite W in P. apply P. right. split; [exact W'|].
      left. now exists s.
Qed.

End Paths.

End PathFacts.

(* ================================================================== *)
(** ** Further facts about trimming and the header parser *)

Module MoreFacts.
Import Fetch.

Section Parse.
Context {hdrs : HeadersClass}.

Lemma trim_idempotent (s : Js.str) : Js.trim (Js.trim s) = Js.trim s.
Proof.
  destruct (TrimFacts.trim_tight s) as [H1 H2].
  unfold Js.trim at 1. unfold Js.trimStart, Js.trimEnd.
  rewrite (TrimFacts.drop_while_id _ _ H1), (TrimFacts.drop_while_id _ _ H2).
  apply rev_involutive.
Qed.

(** What the callback can throw. *)
Lemma header_line_error (hs : Headers.t) (raw : Js.str) (e : Thrown) :
  header_line hs raw = inl e ->
  (exists n v, e = TypeError n v) \/
  (Js.trim raw <> [] /\ e = parse_error (Js.trim raw)).
Proof.
  unfold header_line. cbv zeta.
  destruct (Js.length (Js.trim raw) =? 0)%Z eqn:L; [discriminate|].
  assert (Hne : Js.trim raw <> []).
  { intros K. rewrite K in L. discriminate. }
  destruct (Js.indexOf (Js.trim raw) colon <? 0)%Z.
  { intros H. right. split; [exact Hne|congruence]. }
  destruct (Js.length (Js.trim (Js.slice _ _ _)) =? 0)%Z.
  { intros H. right. split; [exact Hne|congruence]. }
  destruct (Headers.set _ _ _); intros H; [discriminate H|].
  left. eexists. eexists. symmetry.
  exact (f_equal (fun r => match r with inl x => x | inr _ => e end) H).
Qed.

Lemma forEach_error (lines : list Js.str) (hs : Headers.t) (e : Thrown) :
  forEach lines hs = inl e ->
  (exists n v, e = TypeError n v) \/
  exists l, In l lines /\ Js.trim l <> [] /\ e = parse_error (Js.trim l).
Proof.
  revert hs. induction lines as [|l lines IH]; intros hs; simpl;
    [discriminate|].
  destruct (header_line hs l) as [e'|hs'] eqn:H.
  - intros K. assert (e' = e) by congruence. subst e'.
    destruct (header_line_error _ _ _ H) as [Ht|[Hne ->]]; [now left|].
    right. exists l. auto.
  - intros K. destruct (IH _ K) as [Ht|(l' & Hin & Hne & ->)]; [now left|].
    right. exists l'. auto.
Qed.

End Parse.

Section Run.
Context {cls : OperationErrorClass} {hdrs : HeadersClass}.

Lemma attempt_not_bytes f (url : Js.str) (cfg : Config) (rt1 rt2 : Js.str)
    (s : State) :
  Js.eqb rt1 `"Bytes" = false -> Js.eqb rt2 `"Bytes" = false ->
  attempt f url cfg rt1 s = attempt f url cfg rt2 s.
Proof.
  intros H1 H2. unfold attempt, bind.
  destruct (await_fetch f url cfg s) as [[r|e] s']; [|reflexivity].
  now rewrite H1, H2.
Qed.

(** What the instance holds when a call returns. *)
Lemma return_cases (host : Host) (input : Js.str) (args : Args)
    (op : Operation) (v : Value) :
  let out := run host input args (enter op) in
  fst out = Return v ->
  match v with
  | VArray _ =>
      this (snd out) = mkOperation `"byteArray" `"byteArray" /\
      arg_returnType args = `"Bytes"
  | VString s =>
      (log (snd out) = [] /\ s = [] /\ this (snd out) = op) \/
      (log (snd out) <> [] /\
       this (snd out) = mkOperation `"string" `"string" /\
       arg_returnType args <> `"Bytes")
  end.
Proof.
  cbv zeta.
  destruct (PathFacts.run_path host input args op)
    as [ | | | | | f hs r c _ _ _ _ _ Hc wantsBytes sel];
    cbn [fst snd log this enter]; intros Hv; try discriminate Hv.
  - assert (v = VString []) by congruence. subst v. left. auto.
  - subst c.
    destruct Hc as [(Hrt & [(b & _ & Hc)|(e & _ & Hc)])
                   |(Hrt & [(t & _ & Hc)|(e & _ & Hc)])];
      try discriminate Hc.
    + assert (v = VArray (Array_from_Uint8Array b)) by congruence. subst v.
      unfold sel, wantsBytes. rewrite Hrt. split; reflexivity.
    + assert (v = VString t) by congruence. subst v. right.
      unfold sel, wantsBytes.
      apply JsFacts.eqb_neq in Hrt. rewrite Hrt.
      apply JsFacts.eqb_neq in Hrt. repeat split; [discriminate|exact Hrt].
Qed.

End Run.

End MoreFacts.

(* ================================================================== *)
(** ** Facts about the splitting into lines *)

Module SplitFacts.
Import Js.

Lemma split_from_LF (cur rest : str) :
  split_from cur (LF :: rest) = cur :: split_from [] rest.
Proof. reflexivity. Qed.

Lemma split_from_CRLF (cur rest : str) :
  split_from cur (CR :: LF :: rest) = cur :: split_from [] rest.
Proof. reflexivity. Qed.

Lemma split_from_other (cur : str) (c : N) (rest : str) :
  c <> LF -> (c = CR -> forall rest', rest <> LF :: rest') ->
  split_from cur (c :: rest) = split_from (cur ++ [c]) rest.
Proof.
  intros H1 H2. cbn [split_from].
  destruct (N.eqb_spec c LF) as [|_]; [contradiction|].
  destruct (N.eqb_spec c CR) as [E|_]; [|reflexivity].
  destruct rest as [|d rest']; [reflexivity|].
  destruct (N.eqb_spec d LF) as [->|_]; [|reflexivity].
  exfalso. now apply (H2 E rest').
Qed.

(** Induction along the scan of [split_from]. *)
Lemma split_from_induction (P : str -> str -> Prop) :
  (forall cur, P cur []) ->
  (forall cur rest, P [] rest -> P cur (LF :: rest)) ->
  (forall cur rest, P [] rest -> P cur (CR :: LF :: rest)) ->
  (forall cur c rest,
      c <> LF -> (c = CR -> forall rest', rest <> LF :: rest') ->
      P (cur ++ [c]) rest -> P cur (c :: rest)) ->
  forall s cur, P cur s.
Proof.
  intros Hnil HLF HCRLF Hother.
  assert (K : forall n s, (List.length s <= n)%nat -> forall cur, P cur s).
  { induction n as [|n IH]; intros s Hlen cur.
    - destruct s; [apply Hnil|simpl in Hlen; lia].
    - destruct s as [|c rest]; [apply Hnil|].
      simpl in Hlen.
      destruct (N.eq_dec c LF) as [->|Hc].
      { apply HLF. apply IH. lia. }
      destruct (N.eq_dec c CR) as [->|Hc'].
      + destruct rest as [|d rest'].
        * apply Hother; [exact Hc|discriminate|]. apply IH. simpl. lia.
        * destruct (N.eq_dec d LF) as [->|Hd].
          -- apply HCRLF. apply IH. simpl in Hlen. lia.
          -- apply Hother; [exact Hc| |apply IH; lia].
             intros _ rest'' E. congruence.
      + apply Hother; [exact Hc|contradiction|]. apply IH. lia. }
  intros s cur. now apply (K (List.length s)).
Qed.

Lemma drop_while_app_white (p : N -> bool) (s : str) (c : N) :
  p c = true ->
  drop_while p (s ++ [c]) =
  match drop_while p s with [] => [] | t => t ++ [c] end.
Proof.
  intros Hc. induction s as [|d s IH]; simpl.
  - now rewrite Hc.
  - destruct (p d); [exact IH|reflexivity].
Qed.

(** A white unit at the end of a line does not survive [trim]. *)
Lemma trim_app_white (s : str) (c : N) :
  is_white c = true -> trim (s ++ [c]) = trim s.
Proof.
  intros Hc. unfold trim, trimStart.
  rewrite (drop_while_app_white _ _ _ Hc).
  destruct (drop_while is_white s) as [|d t]; [reflexivity|].
  unfold trimEnd. rewrite rev_app_distr. simpl rev at 1.
  cbn [app drop_while]. now rewrite Hc.
Qed.

Lemma crlf_no_leading_LF (s r : str) : crlf s <> LF :: r.
Proof.
  destruct s as [|c s]; [discriminate|]. simpl.
  destruct (N.eqb_spec c LF) as [->|H]; [discriminate|].
  intros K. congruence.
Qed.

Lemma split_from_crlf (s cur : str) :
  Forall2 same_trimmed (split_from cur (crlf s)) (split_from cur s).
Proof.
  revert s cur.
  apply (split_from_induction
           (fun cur s => Forall2 same_trimmed (split_from cur (crlf s))
                                 (split_from cur s))).
  - intros cur. simpl. constructor; [reflexivity|constructor].
  - intros cur rest IH. cbn [crlf]. rewrite N.eqb_refl.
    rewrite split_from_CRLF, split_from_LF.
    constructor; [reflexivity|exact IH].
  - intros cur rest IH.
    change (crlf (CR :: LF :: rest)) with (CR :: CR :: LF :: crlf rest).
    rewrite (split_from_other cur CR (CR :: LF :: crlf rest));
      [|discriminate|intros _ r; discriminate].
    rewrite !split_from_CRLF.
    constructor; [|exact IH].
    unfold same_trimmed. apply trim_app_white. reflexivity.
  - intros cur c rest Hc Hcr IH. cbn [crlf].
    destruct (N.eqb_spec c LF) as [|_]; [contradiction|].
    rewrite (split_from_other cur c (crlf rest) Hc)
      by (intros _ r; apply crlf_no_leading_LF).
    now rewrite (split_from_other cur c rest Hc Hcr).
Qed.

(** Lines cut from white space are white. *)
Lemma split_from_white (s cur : str) :
  forallb is_white cur = true -> forallb is_white s = true ->
  Forall (fun l => trim l = []) (split_from cur s).
Proof.
  revert s cur.
  apply (split_from_induction
           (fun cur s => forallb is_white cur = true ->
                         forallb is_white s = true ->
                         Forall (fun l => trim l = []) (split_from cur s))).
  - intros cur Hcur _. simpl. constructor; [|constructor].
    now apply TrimFacts.trim_all_white.
  - intros cur rest IH Hcur Hs. rewrite split_from_LF.
    cbn [forallb] in Hs. apply andb_true_iff in Hs as [_ Hs].
    constructor; [now apply TrimFacts.trim_all_white|now apply IH].
  - intros cur rest IH Hcur Hs. rewrite split_from_CRLF.
    cbn [forallb] in Hs. apply andb_true_iff in Hs as [_ Hs].
    apply andb_true_iff in Hs as [_ Hs].
    constructor; [now apply TrimFacts.trim_all_white|now apply IH].
  - intros cur c rest Hc Hcr IH Hcur Hs.
    rewrite (split_from_other cur c rest Hc Hcr).
    cbn [forallb] in Hs. apply andb_true_iff in Hs as [Hw Hs].
    apply IH; [|exact Hs].
    rewrite forallb_app, Hcur. simpl. now rewrite Hw.
Qed.

End SplitFacts.

(* ================================================================== *)
(** ** What the parser takes *)

Module TakenFacts.
Import Fetch.

Section Parse.
Context {hdrs : HeadersClass}.

Lemma header_line_same_trimmed (hs : Headers.t) (l1 l2 : Js.str) :
  same_trimmed l1 l2 -> header_line hs l1 = header_line hs l2.
Proof. intros H. unfold header_line. now rewrite H. Qed.

Lemma forEach_same_trimmed (lines1 lines2 : list Js.str) :
  Forall2 same_trimmed lines1 lines2 ->
  forall hs, forEach lines1 hs = forEach lines2 hs.
Proof.
  induction 1 as [|l1 l2 lines1 lines2 Hl _ IH]; intros hs; simpl;
    [reflexivity|].
  rewrite (header_line_same_trimmed hs l1 l2 Hl).
  destruct (header_line hs l2); [reflexivity|apply IH].
Qed.

Lemma parse_headers_crlf (text : Js.str) :
  parse_headers (crlf text) = parse_headers text.
Proof.
  unfold parse_headers, Js.split_lines.
  apply forEach_same_trimmed, SplitFacts.split_from_crlf.
Qed.

Lemma forEach_blank (lines : list Js.str) (hs : Headers.t) :
  Forall (fun l => Js.trim l = []) lines -> forEach lines hs = inr hs.
Proof.
  induction 1 as [|l lines Hl _ IH]; simpl; [reflexivity|].
  now rewrite (ParseFacts.header_line_blank hs l Hl).
Qed.

Lemma indexOf_present (s : Js.str) (c : N) :
  (Js.indexOf s c <? 0)%Z = false -> In c s.
Proof.
  intros H. destruct (in_dec N.eq_dec c s) as [Hin|Hout]; [exact Hin|].
  rewrite (JsFacts.indexOf_absent _ _ Hout) in H. discriminate.
Qed.

Lemma first_occurrence (c : N) (s : Js.str) :
  In c s -> exists a b, s = a ++ c :: b /\ ~ In c a.
Proof.
  induction s as [|d s IH]; [intros []|].
  intros Hin. destruct (N.eq_dec d c) as [->|Hd].
  - exists [], s. split; [reflexivity|intros []].
  - destruct Hin as [E|Hin]; [contradiction|].
    destruct (IH Hin) as (a & b & -> & Hno).
    exists (d :: a), b. split; [reflexivity|].
    intros [E|K]; [contradiction|now apply Hno].
Qed.

(** A line the callback takes is one the specification describes. *)
Lemma header_line_taken (hs hs' : Headers.t) (raw : Js.str) :
  header_line hs raw = inr hs' ->
  exists o, spec_header_line raw o /\
            hs' = match o with Some f => put hs f | None => hs end.
Proof.
  unfold header_line. cbv zeta.
  destruct (Js.length (Js.trim raw) =? 0)%Z eqn:L.
  { intros H. exists None. apply JsFacts.length_zero in L.
    split; [now constructor|congruence]. }
  destruct (Js.indexOf (Js.trim raw) colon <? 0)%Z eqn:I;
    [intros H; discriminate H|].
  destruct (first_occurrence colon _ (indexOf_present _ _ I))
    as (a & b & Hraw & Hno).
  rewrite Hraw.
  destruct (ParseFacts.cut_at_first_colon a b Hno) as (_ & H2 & H3).
  rewrite H2, H3.
  destruct (Js.length (Js.trim a) =? 0)%Z eqn:La;
    [intros H; discriminate H|].
  assert (Ha : Js.trim a <> []).
  { intros K. rewrite K in La. discriminate. }
  unfold Headers.set. rewrite TrimFacts.normalize_trim.
  destruct (Headers.valid_name (Js.trim a)) eqn:Vn;
    [|intros H; discriminate H].
  destruct (Headers.valid_value (Js.trim b)) eqn:Vv;
    [|intros H; discriminate H].
  cbn [andb]. intros H.
  exists (Some (Js.trim a, Js.trim b)). split.
  - now apply line_field.
  - unfold put. cbn [fst snd]. congruence.
Qed.

Lemma forEach_taken (lines : list Js.str) (hs hs' : Headers.t) :
  forEach lines hs = inr hs' ->
  exists fields,
    Forall2 spec_header_line lines fields /\
    hs' = fold_left put (present fields) hs.
Proof.
  revert hs. induction lines as [|l lines IH]; intros hs; simpl.
  - intros H. exists []. split; [constructor|]. simpl. congruence.
  - destruct (header_line hs l) as [e|hs1] eqn:Hl;
      [intros H; discriminate H|].
    intros H. destruct (header_line_taken _ _ _ Hl) as (o & Ho & ->).
    destruct (IH _ H) as (fields & Hf & ->).
    exists (o :: fields). split; [now constructor|].
    destruct o; reflexivity.
Qed.

(** The header set has at most one header of each name and only names and
    values that [Headers.set] takes. *)
Lemma set_list_one_per_name (l : Headers.t) (n v m : Js.str) :
  (List.length (filter (named m) l) <= 1)%nat ->
  (List.length (filter (named m) (Headers.set_list l n v)) <= 1)%nat.
Proof.
  intros H. destruct (Headers.name_eqb n m) eqn:E.
  - destruct (HeadersFacts.filter_set_list_same l n v m E) as [k ->].
    simpl. lia.
  - now rewrite HeadersFacts.filter_set_list_other.
Qed.

Lemma set_list_valid (l : Headers.t) (n v : Js.str) :
  Headers.valid_name n = true -> Headers.valid_value v = true ->
  Forall (fun h => Headers.valid_name (fst h) = true /\
                   Headers.valid_value (snd h) = true) l ->
  Forall (fun h => Headers.valid_name (fst h) = true /\
                   Headers.valid_value (snd h) = true)
         (Headers.set_list l n v).
Proof.
  intros Hn Hv. induction 1 as [|[k w] l [Hk Hw] Hl IH]; simpl.
  - constructor; [now split|constructor].
  - destruct (Headers.name_eqb k n).
    + constructor; [now split|].
      unfold Headers.remove. apply Forall_forall. intros h Hh.
      apply filter_In in Hh as [Hh _].
      now apply (proj1 (Forall_forall _ _) Hl).
    + constructor; [now split|exact IH].
Qed.

Lemma spec_header_line_valid (raw : Js.str) (f : field) :
  spec_header_line raw (Some f) ->
  Headers.valid_name (fst f) = true /\ Headers.valid_value (snd f) = true.
Proof. intros H. inversion H; subst. now split. Qed.

Lemma fold_put_invariant (lines : list Js.str)
    (fields : list (option field)) :
  Forall2 spec_header_line lines fields ->
  forall hs,
    ((forall m, (List.length (filter (named m) hs) <= 1)%nat) /\
     Forall (fun h => Headers.valid_name (fst h) = true /\
                      Headers.valid_value (snd h) = true) hs) ->
    let hs' := fold_left put (present fields) hs in
    (forall m, (List.length (filter (named m) hs') <= 1)%nat) /\
    Forall (fun h => Headers.valid_name (fst h) = true /\
                     Headers.valid_value (snd h) = true) hs'.
Proof.
  induction 1 as [|raw o lines fields Hl _ IH]; intros hs Hhs;
    [exact Hhs|].
  destruct o as [f|]; [|now apply IH].
  cbn [present flat_map app fold_left]. apply IH.
  destruct Hhs as [H1 H2].
  destruct (spec_header_line_valid _ _ Hl) as [Hn Hv].
  split.
  - intros m. now apply set_list_one_per_name.
  - now apply set_list_valid.
Qed.

End Parse.

Section Run.
Context {cls : OperationErrorClass} {hdrs : HeadersClass}.

(** Two responses that pass the blocked-response test and read alike are
    not told apart. *)
Lemma attempt_reads_only (f1 f2 : Js.str -> Config -> Thrown + Response)
    (url : Js.str) (cfg : Config) (rt : Js.str) (op : Operation)
    (r1 r2 : Response) :
  f1 url cfg = inr r1 -> f2 url cfg = inr r2 ->
  ~ (status r1 = 0 /\ type r1 = `"opaque") ->
  ~ (status r2 = 0 /\ type r2 = `"opaque") ->
  arrayBuffer r1 = arrayBuffer r2 -> text r1 = text r2 ->
  attempt f1 url cfg rt (enter op) = attempt f2 url cfg rt (enter op).
Proof.
  intros H1 H2 B1 B2 Ha Ht.
  rewrite (RunFacts.attempt_passed _ _ _ _ op _ H1 (RunFacts.not_blocked _ B1)).
  rewrite (RunFacts.attempt_passed _ _ _ _ op _ H2 (RunFacts.not_blocked _ B2)).
  now rewrite Ha, Ht.
Qed.

End Run.

End TakenFacts.

(* ================================================================== *)
(** ** Further properties of [Fetch.run] *)

(** X1: white space around the input does not matter: a call on an input
    and a call on that input trimmed do the same, in every state. *)
Theorem run_on_trimmed_input {cls : OperationErrorClass} {hdrs : HeadersClass}
    (host : Host)
    (input : Js.str) (args : Args) (st : State) :
  run host (Js.trim input) args st = run host input args st.
Proof.
  unfold run. now rewrite !RunFacts.or_empty_id, MoreFacts.trim_idempotent.
Qed.

(** X2: a call interacts in one of three ways only: not at all; by one
    request to the trimmed input; or by that request, the assignment of
    [outputType], the assignment of [presentType] to the same type, and
    one body read, in this order.  So no call issues two requests or reads
    a body twice, and no body is read before both assignments. *)
Theorem run_log_shape {cls : OperationErrorClass} {hdrs : HeadersClass}
    (host : Host)
    (input : Js.str) (args : Args) (op : Operation) :
  let l := log (snd (run host input args (enter op))) in
  l = [] \/
  exists cfg,
    l = [Requested (Js.trim input) cfg] \/
    exists sel read,
      (read = Read_arrayBuffer \/ read = Read_text) /\
      l = [Requested (Js.trim input) cfg;
           Assigned_outputType sel; Assigned_presentType sel; read].
Proof.
  cbv zeta.
  destruct (PathFacts.run_path host input args op); cbn [snd log enter];
    try (now left).
  - right. eexists. now left.
  - right. eexists. now left.
  - right. eexists. right. eexists. eexists. split; [|reflexivity].
    destruct wantsBytes; auto.
Qed.

(** X3: a request that a call issues goes to the trimmed input, with the
    method argument as it was given, the cache mode "no-cache", and the
    header set parsed from the header text; and it is issued only where
    [fetch] exists. *)
Theorem issued_request {cls : OperationErrorClass} {hdrs : HeadersClass}
    (host : Host)
    (input : Js.str) (args : Args) (op : Operation)
    (url : Js.str) (cfg : Config) :
  In (Requested url cfg) (log (snd (run host input args (enter op)))) ->
  url = Js.trim input /\
  method cfg = arg_method args /\
  cache cfg = `"no-cache" /\
  parse_headers (arg_headersText args) = inr (headers cfg) /\
  fetch host <> None.
Proof.
  assert (K : forall hs,
    parse_headers (arg_headersText args) = inr hs ->
    fetch host <> None ->
    Requested (Js.trim input)
      (build_config (arg_method args) (arg_payload args) hs)
      = Requested url cfg ->
    url = Js.trim input /\ method cfg = arg_method args /\
    cache cfg = `"no-cache" /\
    parse_headers (arg_headersText args) = inr (headers cfg) /\
    fetch host <> None).
  { intros hs Hp Hf Heq. injection Heq as <- <-.
    destruct (RunFacts.build_config_fields (arg_method args)
                (arg_payload args) hs) as (-> & -> & -> & _).
    auto. }
  destruct (PathFacts.run_path host input args op) as
    [ | | | f hs e ? Hf Hp | f hs r ? Hf Hp | f hs r c ? Hf Hp ];
    cbn [snd log enter In]; try tauto.
  - intros [Hev|[]]. apply (K hs Hp); [congruence|exact Hev].
  - intros [Hev|[]]. apply (K hs Hp); [congruence|exact Hev].
  - intros [Hev|[Hev|[Hev|[Hev|[]]]]]; try discriminate.
    + apply (K hs Hp); [congruence|exact Hev].
    + destruct wantsBytes; discriminate.
Qed.

Lemma issued_request_witness :
  Js.trim `"  https://example.com/ " = Sample.url /\
  method (build_config `"POST" `"a=1" [(`"Accept", `"*/*")]) = `"POST" /\
  cache (build_config `"POST" `"a=1" [(`"Accept", `"*/*")]) = `"no-cache" /\
  Sample.parse_headers `"Accept: */*" = inr [(`"Accept", `"*/*")].
Proof.
  destruct (issued_request (cls := Sample.errors) (hdrs := Sample.hdrs)
              (Sample.settling (inr Sample.ok)) `"  https://example.com/ "
              Sample.post Sample.op Sample.url
              (build_config `"POST" `"a=1" [(`"Accept", `"*/*")]))
    as (H1 & H2 & H3 & H4 & _).
  - left. reflexivity.
  - exact (conj (eq_sym H1) (conj H2 (conj H3 H4))).
Defined.

(** X4: only the return type "Bytes" is told apart: with any other return
    type a call does exactly what it does with "String". *)
Theorem other_return_type_reads_text {cls : OperationErrorClass}
    {hdrs : HeadersClass}
    (host : Host) (input : Js.str) (args : Args) (st : State) :
  arg_returnType args <> `"Bytes" ->
  run host input args st = run host input (with_returnType args `"String") st.
Proof.
  intros Hrt. apply JsFacts.eqb_neq in Hrt.
  unfold run, with_returnType. cbn [arg_method arg_payload arg_headersText
                                    arg_returnType].
  destruct (Js.length (Js.trim (or_empty input)) =? 0)%Z; [reflexivity|].
  destruct (fetch host) as [f|]; [|reflexivity].
  unfold bind.
  destruct (settle (parse_headers (arg_headersText args)) st) as [[hs|e] s'];
    [|reflexivity].
  unfold try_catch.
  now rewrite (MoreFacts.attempt_not_bytes f _ _ (arg_returnType args)
                 `"String" s' Hrt eq_refl).
Qed.

Lemma other_return_type_reads_text_witness :
  Sample.run (Sample.settling (inr Sample.ok)) Sample.url
             (with_returnType Sample.post `"bytes") (enter Sample.op) =
  Sample.run (Sample.settling (inr Sample.ok)) Sample.url
             (with_returnType Sample.post `"String") (enter Sample.op).
Proof.
  apply (other_return_type_reads_text (cls := Sample.errors)
      (hdrs := Sample.hdrs)
           (Sample.settling (inr Sample.ok)) Sample.url
           (with_returnType Sample.post `"bytes") (enter Sample.op)).
  discriminate.
Defined.

(** X5: the errors of a call.  One raised before any request is the error
    that [fetch] is not available, the error that a line of the header text
    (named in its message, trimmed) could not be parsed, or the [TypeError]
    that [headers.set] raised for a name and a value, worded by the host.
    One raised after the request was issued is an OperationError whose
    message ends with the hint block. *)
Theorem run_failure_kinds {cls : OperationErrorClass} {hdrs : HeadersClass}
    (host : Host)
    (input : Js.str) (args : Args) (op : Operation) (e : Thrown) :
  let out := run host input args (enter op) in
  fst out = Throw e ->
  (log (snd out) = [] /\
   (e = OperationError `"Fetch API is not available in this environment." \/
    (exists name value, e = TypeError name value) \/
    exists l, In l (Js.split_lines (arg_headersText args)) /\
              Js.trim l <> [] /\
              e = OperationError
                    (`"Could not parse header in line: " ++ Js.trim l))) \/
  (log (snd out) <> [] /\
   exists d, e = OperationError (d ++ hint_block)).
Proof.
  cbv zeta.
  destruct (PathFacts.run_path host input args op)
    as [ | | f e' _ _ Hp | f hs e' | f hs r
       | f hs r c _ _ _ _ _ Hc wantsBytes sel];
    cbn [fst snd log enter]; intros He; try discriminate He.
  - left. split; [reflexivity|]. left.
    assert (e = OperationError unavailable_message) by congruence.
    subst e. reflexivity.
  - left. split; [reflexivity|]. right.
    assert (e' = e) by congruence. subst e'.
    destruct (MoreFacts.forEach_error _ _ _ Hp) as [Ht|(l & Hin & Hne & ->)];
      [now left|].
    right. exists l. auto.
  - right. split; [discriminate|]. exists (toString e'). congruence.
  - right. split; [discriminate|].
    exists (toString (OperationError blocked_message)). congruence.
  - right. split; [discriminate|]. subst c.
    destruct Hc as [(_ & [(b & _ & Hc)|(e' & _ & Hc)])
                   |(_ & [(t & _ & Hc)|(e' & _ & Hc)])];
      try discriminate Hc; exists (toString e'); congruence.
Qed.

Lemma run_failure_kinds_witness :
  (exists d,
     OperationError
       (toString (cls := Sample.errors) Sample.failed_to_fetch ++ hint_block) =
     OperationError (d ++ hint_block)) /\
  (exists name value,
     TypeError (hdrs := Sample.hdrs) `"X Foo" `"1" =
     TypeError (hdrs := Sample.hdrs) name value).
Proof.
  split.
  - destruct (run_failure_kinds (cls := Sample.errors) (hdrs := Sample.hdrs)
                (Sample.settling (inr Sample.broken)) Sample.url
                Sample.get_bytes Sample.op
                (OperationError
                   (toString (cls := Sample.errors) Sample.failed_to_fetch
                    ++ hint_block)) eq_refl)
      as [[Hlog _]|[_ H]].
    + discriminate Hlog.
    + exact H.
  - destruct (run_failure_kinds (cls := Sample.errors) (hdrs := Sample.hdrs)
                (Sample.settling (inr Sample.ok)) Sample.url
                (Sample.with_headers `"X Foo: 1") Sample.op
                (TypeError (hdrs := Sample.hdrs) `"X Foo" `"1") eq_refl)
      as [[_ [H|[H|(l & _ & _ & H)]]]|[Hlog _]].
    + discriminate H.
    + exact H.
    + discriminate H.
    + exfalso. now apply Hlog.
Defined.

(** X6: the value a call returns and the type it leaves declared.  An
    array is returned only with return type "Bytes" and both declared
    types at "byteArray".  A string is returned either without any
    interaction, and then it is empty and the instance is as it was, or
    after a request, with both declared types at "string". *)
Theorem returned_value_and_declared_type {cls : OperationErrorClass}
    {hdrs : HeadersClass}
    (host : Host) (input : Js.str) (args : Args) (op : Operation)
    (v : Value) :
  let out := run host input args (enter op) in
  fst out = Return v ->
  match v with
  | VArray _ =>
      this (snd out) = mkOperation `"byteArray" `"byteArray" /\
      arg_returnType args = `"Bytes"
  | VString s =>
      (log (snd out) = [] /\ s = [] /\ this (snd out) = op) \/
      (log (snd out) <> [] /\
       this (snd out) = mkOperation `"string" `"string" /\
       arg_returnType args <> `"Bytes")
  end.
Proof. apply MoreFacts.return_cases. Qed.

Lemma returned_value_and_declared_type_witness :
  this (snd (Sample.run (Sample.settling (inr Sample.ok)) Sample.url
                        Sample.get_bytes (enter Sample.op))) =
    mkOperation `"byteArray" `"byteArray" /\
  arg_returnType Sample.get_bytes = `"Bytes".
Proof.
  exact (returned_value_and_declared_type (cls := Sample.errors)
      (hdrs := Sample.hdrs)
           (Sample.settling (inr Sample.ok)) Sample.url Sample.get_bytes
           Sample.op (VArray [104; 105; 255]) eq_refl).
Defined.

(** X7: two calls on one instance.  After a call that returned an array, a
    call on a blank input returns the empty string and leaves both declared
    types at "byteArray": the type declared is the one of the earlier
    call, not the one of the value just returned. *)
Theorem blank_call_keeps_earlier_type {cls : OperationErrorClass}
    {hdrs : HeadersClass}
    (host1 host2 : Host) (input1 input2 : Js.str) (args1 args2 : Args)
    (op : Operation) (values : list N) :
  let first := run host1 input1 args1 (enter op) in
  fst first = Return (VArray values) ->
  Js.trim input2 = [] ->
  let second := run host2 input2 args2 (enter (this (snd first))) in
  fst second = Return (VString []) /\
  this (snd second) = mkOperation `"byteArray" `"byteArray".
Proof.
  intros first Hfirst Hblank second. unfold second.
  rewrite (RunFacts.run_blank _ _ _ _ Hblank). cbn [fst snd this enter].
  split; [reflexivity|].
  exact (proj1 (MoreFacts.return_cases host1 input1 args1 op
                  (VArray values) Hfirst)).
Qed.

Lemma blank_call_keeps_earlier_type_witness :
  let first := Sample.run (Sample.settling (inr Sample.ok)) Sample.url
                          Sample.get_bytes (enter Sample.op) in
  let second := Sample.run (Sample.settling (inr Sample.ok)) `"  "
                           Sample.get_string (enter (this (snd first))) in
  fst second = Return (VString []) /\
  this (snd second) = mkOperation `"byteArray" `"byteArray".
Proof.
  exact (blank_call_keeps_earlier_type (cls := Sample.errors)
      (hdrs := Sample.hdrs)
           (Sample.settling (inr Sample.ok))
           (Sample.settling (inr Sample.ok)) Sample.url `"  "
           Sample.get_bytes Sample.get_string Sample.op [104; 105; 255]
           eq_refl eq_refl).
Defined.

(** X8: a header text that is empty or holds nothing but white space and
    line breaks is taken and gives the empty header set. *)
Theorem blank_header_text {hdrs : HeadersClass}
    (headersText : Js.str) :
  forallb Js.is_white headersText = true ->
  parse_headers headersText = inr Headers.empty.
Proof.
  intros H. unfold parse_headers, Js.split_lines.
  apply TakenFacts.forEach_blank.
  now apply SplitFacts.split_from_white.
Qed.

Lemma blank_header_text_witness :
  Sample.parse_headers (`"  " ++ [Js.CR; Js.LF; Js.LF] ++ `" ") =
    inr Headers.empty.
Proof. apply (blank_header_text (hdrs := Sample.hdrs)). reflexivity. Defined.

(** X9: line endings of the header text.  Writing every line break of the
    header text as carriage return and line feed changes nothing in what
    the call does. *)
Theorem crlf_header_text {cls : OperationErrorClass} {hdrs : HeadersClass}
    (host : Host)
    (input : Js.str) (args : Args) (st : State) :
  run host input (with_headersText args (crlf (arg_headersText args))) st =
  run host input args st.
Proof.
  unfold run, with_headersText.
  cbn [arg_method arg_payload arg_headersText arg_returnType].
  now rewrite TakenFacts.parse_headers_crlf.
Qed.

(** X10: the parser takes a header text exactly when each of its lines is
    blank once trimmed or reads [name: value] with a name and a value the
    header set takes. *)
Theorem parse_headers_succeeds_iff {hdrs : HeadersClass}
    (headersText : Js.str) :
  (exists hs, parse_headers headersText = inr hs) <->
  (exists fields,
     Forall2 spec_header_line (Js.split_lines headersText) fields).
Proof.
  split.
  - intros [hs H]. unfold parse_headers in H.
    destruct (TakenFacts.forEach_taken _ _ _ H) as (fields & Hf & _).
    now exists fields.
  - intros [fields H]. unfold parse_headers.
    rewrite (ParseFacts.forEach_spec _ _ H). eexists. reflexivity.
Qed.

Lemma parse_headers_succeeds_iff_witness :
  exists fields,
    Forall2 spec_header_line
      (Js.split_lines (`"A: 1" ++ [Js.LF] ++ `"b:c:d")) fields.
Proof.
  apply (proj1 (parse_headers_succeeds_iff (hdrs := Sample.hdrs)
                  (`"A: 1" ++ [Js.LF] ++ `"b:c:d"))).
  exists [(`"A", `"1"); (`"b", `"c:d")]. reflexivity.
Defined.

(** X11: the header set built from a header text has at most one header of
    any name (names compared without regard to case), and each of its
    headers has a name and a value that [Headers.set] takes: a token as
    name, and a value without NUL, carriage return or line feed. *)
Theorem parsed_headers_invariant {hdrs : HeadersClass}
    (headersText : Js.str) (hs : Headers.t) :
  parse_headers headersText = inr hs ->
  (forall n, (List.length (filter (named n) hs) <= 1)%nat) /\
  Forall (fun h => Headers.valid_name (fst h) = true /\
                   Headers.valid_value (snd h) = true) hs.
Proof.
  intros H. unfold parse_headers in H.
  destruct (TakenFacts.forEach_taken _ _ _ H) as (fields & Hf & ->).
  apply (TakenFacts.fold_put_invariant _ _ Hf Headers.empty).
  split; [intros m; simpl; lia|constructor].
Qed.

Lemma parsed_headers_invariant_witness :
  (forall n, (List.length (filter (named n) [(`"A", `"2")]) <= 1)%nat) /\
  Forall (fun h => Headers.valid_name (fst h) = true /\
                   Headers.valid_value (snd h) = true) [(`"A", `"2")].
Proof.
  apply (parsed_headers_invariant (hdrs := Sample.hdrs)
      (`"A: 1" ++ [Js.LF] ++ `"a: 2")).
  reflexivity.
Defined.

(** X12: of a response only the blocked-response test and the body are
    looked at.  Two hosts whose responses both pass that test and read
    alike make the call do the same, whatever the status codes are. *)
Theorem response_status_not_inspected {cls : OperationErrorClass}
    {hdrs : HeadersClass}
    (host1 host2 : Host) (f1 f2 : Js.str -> Config -> Thrown + Response)
    (input : Js.str) (args : Args) (op : Operation) (hs : Headers.t)
    (r1 r2 : Response) :
  Js.trim input <> [] ->
  fetch host1 = Some f1 -> fetch host2 = Some f2 ->
  parse_headers (arg_headersText args) = inr hs ->
  let cfg := build_config (arg_method args) (arg_payload args) hs in
  f1 (Js.trim input) cfg = inr r1 ->
  f2 (Js.trim input) cfg = inr r2 ->
  ~ (status r1 = 0 /\ type r1 = `"opaque") ->
  ~ (status r2 = 0 /\ type r2 = `"opaque") ->
  arrayBuffer r1 = arrayBuffer r2 -> text r1 = text r2 ->
  run host1 input args (enter op) = run host2 input args (enter op).
Proof.
  intros Hu Hf1 Hf2 Hp cfg H1 H2 B1 B2 Ha Ht.
  rewrite (RunFacts.run_attempt _ _ _ _ _ _ Hu Hf1 Hp).
  rewrite (RunFacts.run_attempt _ _ _ _ _ _ Hu Hf2 Hp).
  rewrite !RunFacts.handled. fold cfg.
  now rewrite (TakenFacts.attempt_reads_only f1 f2 _ _ _ op r1 r2
                 H1 H2 B1 B2 Ha Ht).
Qed.

Lemma response_status_not_inspected_witness :
  Sample.run (Sample.settling (inr Sample.ok)) Sample.url Sample.post
             (enter Sample.op) =
  Sample.run (Sample.settling (inr not_found)) Sample.url Sample.post
             (enter Sample.op).
Proof.
  assert (U : Js.trim Sample.url <> []) by discriminate.
  assert (B1 : ~ (status Sample.ok = 0 /\ type Sample.ok = `"opaque"))
    by (intros [K _]; discriminate K).
  assert (B2 : ~ (status not_found = 0 /\ type not_found = `"opaque"))
    by (intros [K _]; discriminate K).
  exact (response_status_not_inspected (cls := Sample.errors)
      (hdrs := Sample.hdrs)
           (Sample.settling (inr Sample.ok))
           (Sample.settling (inr not_found))
           (fun _ _ => inr Sample.ok) (fun _ _ => inr not_found)
           Sample.url Sample.post Sample.op [(`"Accept", `"*/*")]
           Sample.ok not_found U eq_refl eq_refl eq_refl eq_refl eq_refl
           B1 B2 eq_refl eq_refl).
Defined.
